(** * Datahead collector: host discovery and Observe subscription

    A shallow embedding of [datahead/collector.py]: the host registry kept by
    [ValueCollector], the resource handlers it registers with the CoAP server,
    the deferred Observe registration and the notification reader.

    The CoAP engine (package soscoap), [threading.Timer], [random] and
    [logging] are outside the collector.  Their objects appear here as plain
    records holding the attributes the collector reads and writes, and their
    calls as steps of a world that records what the collector asked for. *)

From stdpp Require Import base list strings pretty.
From Stdlib Require Import Ascii ZArith Lia.

Local Open Scope Z_scope.

(** ** Enumerations of soscoap

    Only the members are needed, never their numbers.  Each enumeration lists
    the members of RFC 7252 that soscoap names. *)

Inductive CodeClass := Request | Success | ClientError | ServerError.

Inductive MessageType := CON | NON | ACK | RST.

Inductive RequestCode := GET | POST | PUT | DELETE.

Inductive SuccessResponseCode := Created | Deleted | Valid | Changed | Content.

Inductive ClientResponseCode :=
  BadRequest | Unauthorized | BadOption | Forbidden | NotFound | MethodNotAllowed.

Inductive ServerResponseCode := InternalServerError | NotImplemented.

Inductive OptionType := UriPath | ContentFormat | UriQuery | Observe.

#[global] Instance OptionType_eq_dec : EqDecision OptionType.
Proof. solve_decision. Defined.

(** [resource.resultCode] receives members of three enumerations. *)
Inductive ResultCode :=
| OfSuccess (c : SuccessResponseCode)
| OfClient (c : ClientResponseCode)
| OfServer (c : ServerResponseCode).

(** ** Objects *)

(** A socket address as [recvfrom] yields it: host and port first, then
    whatever the address family adds (flow info and scope id for IPv6).
    [sourceAddress[0]] is [sa_host], [sourceAddress[1]] is [sa_port]. *)
Record SockAddr := {
  sa_host : string;
  sa_port : Z;
  sa_rest : list Z
}.

(** The resource transfer object the server hands to a handler.  The handler
    may fill in [resultClass] and [resultCode]; [None] is the unset default. *)
Record Resource := {
  path : string;
  sourceAddress : SockAddr;
  resultClass : option CodeClass;
  resultCode : option ResultCode
}.

(** Modelled from the spec: the [Host] class of [datahead.models], whose file
    is not among the sources.  A host is a plain record of the device's
    [address] (the dedup key) and of its derived display [name]; it defines
    neither [__bool__] nor [__len__], so an instance is truthy and only [None]
    is falsy. *)
Record Host := {
  address : string;
  name : string
}.

(** [Host()]: the attributes are assigned right after construction and are not
    read before. *)
Definition Host_new : Host := {| address := ""; name := "" |}.

Definition set_address (v : string) (h : Host) : Host :=
  {| address := v; name := name h |}.

Definition set_name (v : string) (h : Host) : Host :=
  {| address := address h; name := v |}.

Inductive OptionValue :=
| OptStr (s : string)
| OptInt (n : Z).

Record CoapOption := {
  optionType : OptionType;
  optionValue : OptionValue
}.

(** An outbound [CoapMessage] as [_startObserve] fills it in.  A new message
    has no attribute set and no option. *)
Record CoapMessage := {
  msgAddress : string * Z;
  messageType : option MessageType;
  codeClass : option CodeClass;
  codeDetail : option RequestCode;
  messageId : option Z;
  options : list CoapOption;
  tokenLength : Z;
  token : list Z
}.

(** What [_observeTemp] reads of an inbound message: the two numbers of the
    response code and the text [str.format] writes for [typedPayload()]. *)
Record Notification := {
  ntfClass : N;
  ntfDetail : N;
  ntfPayload : string
}.

(** The bound methods of the collector that are passed around as callbacks. *)
Inductive Callback :=
| cb_getResource
| cb_postResource
| cb_observeTemp
| cb_startObserve.

Record CoapServer := {
  port : Z;
  resourceGetHook : list Callback;
  resourcePostHook : list Callback
}.

(** [clientId] stands for the identity of the client object: the number of
    clients constructed before it. *)
Record CoapClient := {
  clientId : nat;
  sourcePort : Z;
  dest : string * Z;
  responseHook : list Callback
}.

(** A started [threading.Timer]; [started] is the clock at [start()]. *)
Record Timer := {
  interval : Z;
  function : Callback;
  args : SockAddr;
  started : Z
}.

Inductive Level := DEBUG | INFO | WARNING | ERROR.

(** What the externals can raise inside [_startObserve]. *)
Inductive CallSite :=
| at_CoapMessage
| at_addOption (k : nat)
| at_CoapClient
| at_registerForResponse
| at_send.

Inductive Exception :=
| ExternalError (site : CallSite)
| IndexError
| ValueError
| AttributeError.

(** [log.exception] is [log.error] with the exception attached. *)
Record LogRecord := {
  level : Level;
  text : string;
  exc_info : option Exception
}.

Record ValueCollector := {
  _coapServer : CoapServer;
  _sourcePort : Z;
  _coapClient : option CoapClient;
  _hosts : list Host;
  _timer : option Timer
}.

(** The collector together with what it has asked of its surroundings. *)
Record World := {
  self : ValueCollector;
  now : Z;
  timers : list Timer;
  logged : list LogRecord;
  sent : list (nat * CoapMessage);
  replies : list Resource;
  clientsCreated : nat
}.

(** ** Strings *)

(** [s.split(sep)] for a separator of one character: the segments between the
    occurrences of [sep], never an empty list. *)
Fixpoint split (sep : ascii) (s : string) : list string :=
  match s with
  | EmptyString => [EmptyString]
  | String c rest =>
      if Ascii.eqb c sep then EmptyString :: split sep rest
      else match split sep rest with
           | seg :: segs => String c seg :: segs
           | [] => [String c EmptyString]
           end
  end.

(** [l[-1]] on a list of strings. *)
Definition item_last (l : list string) : string := List.last l EmptyString.

Definition colon : ascii := ":"%char.

Definition getInvariantName (host : Host) : string :=
  let tail := item_last (split colon (address host)) in
  "mote-" +:+ tail.

(** ** The world and its updates *)

Definition set_self (v : ValueCollector) (w : World) : World :=
  {| self := v; now := now w; timers := timers w; logged := logged w;
     sent := sent w; replies := replies w; clientsCreated := clientsCreated w |}.

Definition set_hosts (v : list Host) (c : ValueCollector) : ValueCollector :=
  {| _coapServer := _coapServer c; _sourcePort := _sourcePort c;
     _coapClient := _coapClient c; _hosts := v; _timer := _timer c |}.

Definition set_coapClient (v : option CoapClient) (c : ValueCollector) : ValueCollector :=
  {| _coapServer := _coapServer c; _sourcePort := _sourcePort c;
     _coapClient := v; _hosts := _hosts c; _timer := _timer c |}.

(** [log.debug], [log.info], [log.warn], [log.error]: one more record. *)
Definition log (lvl : Level) (msg : string) (w : World) : World :=
  {| self := self w; now := now w; timers := timers w;
     logged := logged w ++ [{| level := lvl; text := msg; exc_info := None |}];
     sent := sent w; replies := replies w; clientsCreated := clientsCreated w |}.

Definition log_exception (msg : string) (e : Exception) (w : World) : World :=
  {| self := self w; now := now w; timers := timers w;
     logged := logged w ++ [{| level := ERROR; text := msg; exc_info := Some e |}];
     sent := sent w; replies := replies w; clientsCreated := clientsCreated w |}.

(** [Timer(interval, function, [arg]).start()]: the timer is pending from
    now on. *)
Definition Timer_start (secs : Z) (f : Callback) (arg : SockAddr) (w : World) : World :=
  {| self := self w; now := now w;
     timers := timers w ++ [{| interval := secs; function := f; args := arg;
                               started := now w |}];
     logged := logged w; sent := sent w; replies := replies w;
     clientsCreated := clientsCreated w |}.

Definition set_timers (v : list Timer) (w : World) : World :=
  {| self := self w; now := now w; timers := v; logged := logged w;
     sent := sent w; replies := replies w; clientsCreated := clientsCreated w |}.

Definition set_now (v : Z) (w : World) : World :=
  {| self := self w; now := v; timers := timers w; logged := logged w;
     sent := sent w; replies := replies w; clientsCreated := clientsCreated w |}.

Definition add_reply (r : Resource) (w : World) : World :=
  {| self := self w; now := now w; timers := timers w; logged := logged w;
     sent := sent w; replies := replies w ++ [r];
     clientsCreated := clientsCreated w |}.

Definition set_resultClass (v : CodeClass) (r : Resource) : Resource :=
  {| path := path r; sourceAddress := sourceAddress r;
     resultClass := Some v; resultCode := resultCode r |}.

Definition set_resultCode (v : ResultCode) (r : Resource) : Resource :=
  {| path := path r; sourceAddress := sourceAddress r;
     resultClass := resultClass r; resultCode := Some v |}.

(** ** The collector *)

(** [ValueCollector(sourcePort)] in a fresh process. *)
Definition __init__ (sourcePort : Z) : World :=
  {| self := {| _coapServer := {| port := sourcePort + 1;
                                  resourceGetHook := [cb_getResource];
                                  resourcePostHook := [cb_postResource] |};
                _sourcePort := sourcePort;
                _coapClient := None;
                _hosts := [];
                _timer := None |};
     now := 0; timers := []; logged := []; sent := []; replies := [];
     clientsCreated := 0 |}.

Definition _getResource (resource : Resource) (w : World) : World * Resource :=
  (log DEBUG ("GET resource path is " +:+ path resource) w, resource).

(** The created host; a Python reference, so [Some] of the object. *)
Definition _createHost (resource : Resource) : option Host :=
  let host := Host_new in
  let host := set_address (sa_host (sourceAddress resource)) host in
  let host := set_name (getInvariantName host) host in
  Some host.

(** [next(x for x in self._hosts if x.address == a)], [None] on
    [StopIteration]. *)
Definition find_host (a : string) (hosts : list Host) : option Host :=
  List.find (fun x => String.eqb (address x) a) hosts.

(** [if not host] and [if host]: [None] is falsy, a [Host] instance truthy. *)
Definition _postResource (resource : Resource) (w : World) : World * Resource :=
  let w := log DEBUG ("POST resource path is " +:+ path resource) w in
  if String.eqb (path resource) "/dh/lo" then
    let w := log DEBUG ("/dh/lo: received from " +:+ sa_host (sourceAddress resource)) w in
    match find_host (sa_host (sourceAddress resource)) (_hosts (self w)) with
    | None =>
        match _createHost resource with
        | Some host =>
            let w := set_self (set_hosts (_hosts (self w) ++ [host]) (self w)) w in
            let w := log INFO ("/dh/lo: Created host for " +:+ address host) w in
            let resource := set_resultClass Success resource in
            let resource := set_resultCode (OfSuccess Created) resource in
            let w := Timer_start 2 cb_startObserve (sourceAddress resource) w in
            (w, resource)
        | None =>
            let w := log ERROR ("/dh/lo: Host creation failed for "
                                +:+ sa_host (sourceAddress resource)) w in
            let resource := set_resultClass ServerError resource in
            let resource := set_resultCode (OfServer InternalServerError) resource in
            (w, resource)
        end
    | Some host =>
        let w := log INFO ("/dh/lo: Found host " +:+ name host) w in
        let w := Timer_start 2 cb_startObserve (sourceAddress resource) w in
        (w, resource)
    end
  else
    let w := log WARNING ("Unknown path: " +:+ path resource) w in
    let resource := set_resultClass ClientError resource in
    let resource := set_resultCode (OfClient NotFound) resource in
    (w, resource).

(** [str.format] of an integer that is not negative. *)
Definition format_int (n : N) : string := pretty n.

Definition _observeTemp (message : Notification) (w : World) : World :=
  let prefix := if (ntfDetail message <? 10)%N then "0" else "" in
  log INFO ("Response code: " +:+ format_int (ntfClass message) +:+ "." +:+ prefix
            +:+ format_int (ntfDetail message) +:+ "; value " +:+ ntfPayload message) w.

(** ** Calls that may raise

    A computation runs on the world and either returns or raises; what it did
    to the world before raising stays done. *)

Inductive Outcome (A : Type) :=
| Returned (a : A)
| Raised (e : Exception).

Arguments Returned {A} a.
Arguments Raised {A} e.

Definition M (A : Type) : Type := World -> Outcome A * World.

Definition ret {A} (a : A) : M A := fun w => (Returned a, w).

Definition bind {A B} (m : M A) (k : A -> M B) : M B :=
  fun w => match m w with
           | (Returned a, w') => k a w'
           | (Raised e, w') => (Raised e, w')
           end.

Definition raise {A} (e : Exception) : M A := fun w => (Raised e, w).

Definition modify (f : World -> World) : M unit := fun w => (Returned tt, f w).

(** [try: body except: handler] with a bare [except], which catches all. *)
Definition try_except {A} (body : M A) (handler : Exception -> M A) : M A :=
  fun w => match body w with
           | (Returned a, w') => (Returned a, w')
           | (Raised e, w') => handler e w'
           end.

Declare Scope exc_scope.
Delimit Scope exc_scope with exc.
Notation "'do' x <- m ; k" := (bind m (fun x => k))
  (at level 10, x name, m at level 100, k at level 200) : exc_scope.

Definition set_messageType (v : MessageType) (m : CoapMessage) : CoapMessage :=
  {| msgAddress := msgAddress m; messageType := Some v; codeClass := codeClass m;
     codeDetail := codeDetail m; messageId := messageId m; options := options m;
     tokenLength := tokenLength m; token := token m |}.

Definition set_codeClass (v : CodeClass) (m : CoapMessage) : CoapMessage :=
  {| msgAddress := msgAddress m; messageType := messageType m; codeClass := Some v;
     codeDetail := codeDetail m; messageId := messageId m; options := options m;
     tokenLength := tokenLength m; token := token m |}.

Definition set_codeDetail (v : RequestCode) (m : CoapMessage) : CoapMessage :=
  {| msgAddress := msgAddress m; messageType := messageType m; codeClass := codeClass m;
     codeDetail := Some v; messageId := messageId m; options := options m;
     tokenLength := tokenLength m; token := token m |}.

Definition set_messageId (v : Z) (m : CoapMessage) : CoapMessage :=
  {| msgAddress := msgAddress m; messageType := messageType m; codeClass := codeClass m;
     codeDetail := codeDetail m; messageId := Some v; options := options m;
     tokenLength := tokenLength m; token := token m |}.

Definition set_options (v : list CoapOption) (m : CoapMessage) : CoapMessage :=
  {| msgAddress := msgAddress m; messageType := messageType m; codeClass := codeClass m;
     codeDetail := codeDetail m; messageId := messageId m; options := v;
     tokenLength := tokenLength m; token := token m |}.

Definition set_tokenLength (v : Z) (m : CoapMessage) : CoapMessage :=
  {| msgAddress := msgAddress m; messageType := messageType m; codeClass := codeClass m;
     codeDetail := codeDetail m; messageId := messageId m; options := options m;
     tokenLength := v; token := token m |}.

Definition set_token (v : list Z) (m : CoapMessage) : CoapMessage :=
  {| msgAddress := msgAddress m; messageType := messageType m; codeClass := codeClass m;
     codeDetail := codeDetail m; messageId := messageId m; options := options m;
     tokenLength := tokenLength m; token := v |}.

(** [bytearray(n)]: [n] zero bytes. *)
Definition bytearray (n : nat) : list Z := repeat 0 n.

(** [b[i] = v] on a bytearray: the index is checked, then the byte range. *)
Definition bytearray_setitem (b : list Z) (i : nat) (v : Z) : M (list Z) :=
  if (i <? length b)%nat then
    if (0 <=? v) && (v <? 256) then ret (<[i := v]> b) else raise ValueError
  else raise IndexError.

(** What the surroundings do during one run of [_startObserve]: which external
    calls raise, and the raw draws behind the calls of [random.randint]. *)
Record Oracle := {
  fails : CallSite -> bool;
  entropy : nat -> Z
}.

Section Attempt.

Variable o : Oracle.

Local Open Scope exc_scope.

Definition external (site : CallSite) : M unit :=
  fun w => if fails o site then (Raised (ExternalError site), w)
           else (Returned tt, w).

(** [random.randint(a, b)], the [k]-th draw of this run: an integer [N]
    with [a <= N <= b]. *)
Definition randint (a b : Z) (k : nat) : Z := a + entropy o k mod (b - a + 1).

Definition CoapMessage_new (hostTuple : string * Z) : M CoapMessage :=
  do _ <- external at_CoapMessage;
  ret {| msgAddress := hostTuple; messageType := None; codeClass := None;
         codeDetail := None; messageId := None; options := [];
         tokenLength := 0; token := [] |}.

Definition addOption (k : nat) (opt : CoapOption) (msg : CoapMessage) : M CoapMessage :=
  do _ <- external (at_addOption k);
  ret (set_options (options msg ++ [opt]) msg).

(** [self._coapClient.<method>(...)]. *)
Definition with_coapClient {A} (f : CoapClient -> M A) : M A :=
  fun w => match _coapClient (self w) with
           | Some c => f c w
           | None => (Raised AttributeError, w)
           end.

(** [self._coapClient = CoapClient(sourcePort=..., dest=...)]. *)
Definition CoapClient_new (hostTuple : string * Z) : M unit :=
  do _ <- external at_CoapClient;
  modify (fun w =>
    let c := {| clientId := clientsCreated w; sourcePort := _sourcePort (self w);
                dest := hostTuple; responseHook := [] |} in
    {| self := set_coapClient (Some c) (self w); now := now w; timers := timers w;
       logged := logged w; sent := sent w; replies := replies w;
       clientsCreated := S (clientsCreated w) |}).

Definition registerForResponse (cb : Callback) : M unit :=
  with_coapClient (fun c =>
    do _ <- external at_registerForResponse;
    modify (fun w =>
      let c' := {| clientId := clientId c; sourcePort := sourcePort c; dest := dest c;
                   responseHook := responseHook c ++ [cb] |} in
      set_self (set_coapClient (Some c') (self w)) w)).

Definition send (msg : CoapMessage) : M unit :=
  with_coapClient (fun c =>
    do _ <- external at_send;
    modify (fun w =>
      {| self := self w; now := now w; timers := timers w; logged := logged w;
         sent := sent w ++ [(clientId c, msg)]; replies := replies w;
         clientsCreated := clientsCreated w |})).

(** [# create message] and [# register]: the request is built in place. *)
Definition create_message (hostTuple : string * Z) : M CoapMessage :=
  do msg <- CoapMessage_new hostTuple;
  let msg := set_messageType NON msg in
  let msg := set_codeClass Request msg in
  let msg := set_codeDetail GET msg in
  let msg := set_messageId (randint 0 65535 0) msg in
  do msg <- addOption 0 {| optionType := UriPath; optionValue := OptStr "dh" |} msg;
  do msg <- addOption 1 {| optionType := UriPath; optionValue := OptStr "tmp" |} msg;
  do msg <- addOption 2 {| optionType := Observe; optionValue := OptInt 0 |} msg;
  let msg := set_tokenLength 2 msg in
  let msg := set_token (bytearray 2) msg in
  do tok <- bytearray_setitem (token msg) 0 (randint 0 255 1);
  let msg := set_token tok msg in
  do tok <- bytearray_setitem (token msg) 1 (randint 0 255 2);
  let msg := set_token tok msg in
  ret msg.

(** [# create client]: [if not self._coapClient]; a client object is
    truthy. *)
Definition create_client (hostTuple : string * Z) : M unit :=
  fun w => match _coapClient (self w) with
           | None => (do _ <- CoapClient_new hostTuple;
                      registerForResponse cb_observeTemp) w
           | Some _ => ret tt w
           end.

(** The body of the [try] in [_startObserve]. *)
Definition _startObserve_body (hostAddrTuple : SockAddr) : M unit :=
  let hostTuple := (sa_host hostAddrTuple, sa_port hostAddrTuple) in
  do msg <- create_message hostTuple;
  do _ <- create_client hostTuple;
  (* send message *)
  do _ <- modify (log DEBUG "Sending query");
  send msg.

Definition _startObserve (hostAddrTuple : SockAddr) : M unit :=
  try_except (_startObserve_body hostAddrTuple)
    (fun e => modify (log_exception "Catch-all handler for Observe registration thread" e)).

End Attempt.

(** ** The surroundings

    The server calls the handlers registered for the method of a request and
    then replies with the resource as the handlers left it; a pending timer
    expires once its interval has passed and runs its function in a thread of
    its own; the client calls its response handlers on every notification. *)

Definition call_handler (cb : Callback) (resource : Resource) (w : World)
  : World * Resource :=
  match cb with
  | cb_getResource => _getResource resource w
  | cb_postResource => _postResource resource w
  | _ => (w, resource)
  end.

Definition trigger (hook : list Callback) (resource : Resource) (w : World)
  : World * Resource :=
  fold_left (fun st cb => call_handler cb (snd st) (fst st)) hook (w, resource).

Definition serve (method : RequestCode) (resource : Resource) (w : World) : World :=
  let hook := match method with
              | GET => resourceGetHook (_coapServer (self w))
              | POST => resourcePostHook (_coapServer (self w))
              | _ => []
              end in
  let st := trigger hook resource w in
  add_reply (snd st) (fst st).

Definition expired (t : Timer) (w : World) : bool := started t + interval t <=? now w.

(** The timer expires and its attempt runs from its first statement to its
    last before anything else happens: attempts that overlap are not among the
    runs built from [fire] (they are taken up under "Attempts as threads").
    An exception that left the timer's function would end its thread only. *)
Definition fire (i : nat) (o : Oracle) (w : World) : World :=
  match timers w !! i with
  | Some t =>
      if expired t w then
        let w := set_timers (delete i (timers w)) w in
        match function t with
        | cb_startObserve => snd (_startObserve o (args t) w)
        | _ => w
        end
      else w
  | None => w
  end.

Definition notify (message : Notification) (w : World) : World :=
  match _coapClient (self w) with
  | Some c =>
      fold_left (fun w cb => match cb with
                             | cb_observeTemp => _observeTemp message w
                             | _ => w
                             end) (responseHook c) w
  | None => w
  end.

Inductive Event :=
| Inbound (method : RequestCode) (resource : Resource)
| Tick (dt : N)
| Expire (i : nat) (o : Oracle)
| Notify (message : Notification).

Definition step (w : World) (ev : Event) : World :=
  match ev with
  | Inbound method resource => serve method resource w
  | Tick dt => set_now (now w + Z.of_N dt) w
  | Expire i o => fire i o w
  | Notify message => notify message w
  end.

Definition run (evs : list Event) (w : World) : World := fold_left step evs w.

(** A request as the server builds it: nothing set in the result fields. *)
Definition request (p : string) (a : SockAddr) : Resource :=
  {| path := p; sourceAddress := a; resultClass := None; resultCode := None |}.

(** ** Vocabulary of the properties *)

(** [sep.join(l)]. *)
Fixpoint join (sep : ascii) (l : list string) : string :=
  match l with
  | [] => EmptyString
  | [x] => x
  | x :: rest => x +:+ String sep (join sep rest)
  end.

Fixpoint has_char (c : ascii) (s : string) : bool :=
  match s with
  | EmptyString => false
  | String d rest => Ascii.eqb d c || has_char c rest
  end.

(** [tail] is the last colon-delimited segment of [a]: it holds no colon and
    is all of [a] or what follows a colon of [a]. *)
Definition last_segment (a tail : string) : Prop :=
  has_char colon tail = false /\
  (a = tail \/ exists front, a = front +:+ String colon tail).

(** The hosts of the registry with a given address. *)
Definition hosts_at (a : string) (hosts : list Host) : list Host :=
  filter (fun h => address h = a) hosts.

Definition known (a : string) (w : World) : Prop :=
  exists h, h ∈ _hosts (self w) /\ address h = a.

(** A request to the announcement path from host address [a]. *)
Definition announces (a : string) (resource : Resource) : Prop :=
  path resource = "/dh/lo" /\ sa_host (sourceAddress resource) = a.

(** The timer both branches of the announcement start. *)
Definition observe_timer (resource : Resource) (w : World) : Timer :=
  {| interval := 2; function := cb_startObserve; args := sourceAddress resource;
     started := now w |}.

(** The server as [__init__] wires it. *)
Definition wired (w : World) : Prop :=
  resourceGetHook (_coapServer (self w)) = [cb_getResource] /\
  resourcePostHook (_coapServer (self w)) = [cb_postResource].

(** [s] padded with zeros on the left to [width] characters. *)
Fixpoint zeros (n : nat) : string :=
  match n with
  | O => EmptyString
  | S k => String "0"%char (zeros k)
  end.

Definition zfill (width : nat) (s : string) : string :=
  zeros (width - String.length s) +:+ s.

(** The status line of a notification as the specification words it. *)
Definition status_value (message : Notification) : string :=
  format_int (ntfClass message) +:+ "." +:+ zfill 2 (format_int (ntfDetail message))
  +:+ "; value " +:+ ntfPayload message.

(** The Observe registration request as the specification words it. *)
Definition observe_registration (msg : CoapMessage) : Prop :=
  messageType msg = Some NON /\
  codeClass msg = Some Request /\ codeDetail msg = Some GET /\
  (exists mid, messageId msg = Some mid /\ 0 <= mid <= 65535) /\
  filter (fun opt => optionType opt = UriPath) (options msg)
    = [ {| optionType := UriPath; optionValue := OptStr "dh" |};
        {| optionType := UriPath; optionValue := OptStr "tmp" |} ] /\
  filter (fun opt => optionType opt = Observe) (options msg)
    = [ {| optionType := Observe; optionValue := OptInt 0 |} ] /\
  tokenLength msg = 2 /\
  (exists b0 b1, token msg = [b0; b1] /\ 0 <= b0 <= 255 /\ 0 <= b1 <= 255).

(** The request a run of [_startObserve] builds for a destination. *)
Definition observe_request (o : Oracle) (hostTuple : string * Z) : CoapMessage :=
  {| msgAddress := hostTuple;
     messageType := Some NON;
     codeClass := Some Request;
     codeDetail := Some GET;
     messageId := Some (randint o 0 65535 0);
     options := [ {| optionType := UriPath; optionValue := OptStr "dh" |};
                  {| optionType := UriPath; optionValue := OptStr "tmp" |};
                  {| optionType := Observe; optionValue := OptInt 0 |} ];
     tokenLength := 2;
     token := [randint o 0 255 1; randint o 0 255 2] |}.

(** The sites passed while the request is built. *)
Definition message_sites : list CallSite :=
  [at_CoapMessage; at_addOption 0; at_addOption 1; at_addOption 2].

(** The registry has at most one host per address. *)
Definition registry_ok (w : World) : Prop := NoDup (address <$> _hosts (self w)).

(** The client, once created, is the first and only one constructed (of
    attempts that run one at a time). *)
Definition client_inv (w : World) : Prop :=
  match _coapClient (self w) with
  | None => clientsCreated w = 0%nat
  | Some c => clientsCreated w = 1%nat /\ clientId c = 0%nat
  end.

(** [w'] is a later world of [w]: the server wiring is the same, the registry
    has only grown and kept its hosts apart, and a client that existed is
    still the same object. *)
Definition later (w w' : World) : Prop :=
  _coapServer (self w') = _coapServer (self w) /\
  (exists l, _hosts (self w') = _hosts (self w) ++ l) /\
  (registry_ok w -> registry_ok w') /\
  (client_inv w -> client_inv w') /\
  (forall c, _coapClient (self w) = Some c -> _coapClient (self w') = Some c).

(** The world once a client bound to [hostTuple] has been constructed and
    stored, with [hook] as its response handlers. *)
Definition with_new_client (hostTuple : string * Z) (hook : list Callback) (w : World)
  : World :=
  {| self := set_coapClient
               (Some {| clientId := clientsCreated w; sourcePort := _sourcePort (self w);
                        dest := hostTuple; responseHook := hook |}) (self w);
     now := now w; timers := timers w; logged := logged w; sent := sent w;
     replies := replies w; clientsCreated := S (clientsCreated w) |}.

Definition with_sent (cid : nat) (msg : CoapMessage) (w : World) : World :=
  {| self := self w; now := now w; timers := timers w; logged := logged w;
     sent := sent w ++ [(cid, msg)]; replies := replies w;
     clientsCreated := clientsCreated w |}.

Definition catch_all : string := "Catch-all handler for Observe registration thread".

(** The world after the last two statements of the [try] and the handler. *)
Definition send_world (o : Oracle) (cid : nat) (msg : CoapMessage) (w : World) : World :=
  let w := log DEBUG "Sending query" w in
  if fails o at_send then log_exception catch_all (ExternalError at_send) w
  else with_sent cid msg w.

(** The world a run of [_startObserve] leaves, by the first call that
    raises. *)
Definition attempt_world (o : Oracle) (a : SockAddr) (w : World) : World :=
  let hostTuple := (sa_host a, sa_port a) in
  match List.find (fails o) message_sites with
  | Some site => log_exception catch_all (ExternalError site) w
  | None =>
      match _coapClient (self w) with
      | Some c => send_world o (clientId c) (observe_request o hostTuple) w
      | None =>
          if fails o at_CoapClient then
            log_exception catch_all (ExternalError at_CoapClient) w
          else if fails o at_registerForResponse then
            log_exception catch_all (ExternalError at_registerForResponse)
              (with_new_client hostTuple [] w)
          else
            send_world o (clientsCreated w) (observe_request o hostTuple)
              (with_new_client hostTuple [cb_observeTemp] w)
      end
  end.

(** The sites passed up to the point where a new client is wired. *)
Definition creation_sites : list CallSite :=
  message_sites ++ [at_CoapClient; at_registerForResponse].


(** ** Sample inputs *)

Definition quiet : Oracle :=
  {| fails := fun _ => false; entropy := fun k => 1000 * Z.of_nat k + 77 |}.

Definition send_fails : Oracle :=
  {| fails := fun site => match site with at_send => true | _ => false end;
     entropy := fun _ => 0 |}.

Definition mote_a : SockAddr :=
  {| sa_host := "1.2.3.4"; sa_port := 5683; sa_rest := [] |}.

Definition mote_b : SockAddr :=
  {| sa_host := "fe80::2"; sa_port := 5683; sa_rest := [0; 3] |}.

Definition reading : Notification :=
  {| ntfClass := 2; ntfDetail := 5; ntfPayload := "23.5" |}.

(** ** Shutdown and the entry point *)








(** ** Vocabulary of the further properties *)

(** The source address of an announcement, if the event is one. *)
Definition announcement (ev : Event) : option SockAddr :=
  match ev with
  | Inbound POST resource =>
      if String.eqb (path resource) "/dh/lo" then Some (sourceAddress resource)
      else None
  | _ => None
  end.

Definition announced (evs : list Event) : list SockAddr := omap announcement evs.

Definition is_expiry (ev : Event) : bool :=
  match ev with
  | Expire _ _ => true
  | _ => false
  end.

(** What holds of the world of a collector constructed with [sp], whatever
    has happened since, as long as its attempts have run one at a time. *)
Record sound (sp : Z) (w : World) : Prop := {
  sound_wired : wired w;
  sound_ports : _sourcePort (self w) = sp /\ port (_coapServer (self w)) = sp + 1;
  sound_created : client_inv w;
  sound_names : forall h, h ∈ _hosts (self w) -> name h = getInvariantName h;
  sound_clock : 0 <= now w;
  sound_timers : forall t, t ∈ timers w ->
      interval t = 2 /\ function t = cb_startObserve /\
      known (sa_host (args t)) w /\ 0 <= started t <= now w;
  sound_sent : forall cid msg, (cid, msg) ∈ sent w ->
      cid = 0%nat /\ observe_registration msg /\
      known (fst (msgAddress msg)) w /\ 2 <= now w;
  sound_client : forall c, _coapClient (self w) = Some c ->
      sourcePort c = sp /\ known (fst (dest c)) w /\
      (responseHook c = [] \/ responseHook c = [cb_observeTemp]) /\
      2 <= now w
}.



(** The client an attempt sends through. *)
Definition client_in_use (w : World) : nat :=
  match _coapClient (self w) with
  | Some c => clientId c
  | None => clientsCreated w
  end.

(** The destination of an attempt. *)
Definition hostTuple_of (a : SockAddr) : string * Z := (sa_host a, sa_port a).

(** An oracle that fails at one site only. *)
Definition fails_only (site : CallSite) : Oracle :=
  {| fails := fun s => match site, s with
                       | at_CoapMessage, at_CoapMessage => true
                       | at_addOption j, at_addOption k => Nat.eqb j k
                       | at_CoapClient, at_CoapClient => true
                       | at_registerForResponse, at_registerForResponse => true
                       | at_send, at_send => true
                       | _, _ => false
                       end;
     entropy := fun _ => 0 |}.

(** ** Attempts as threads

    [fire] runs an attempt from its first statement to its last before anything
    else happens.  The program starts every attempt in a [threading.Timer]
    thread of its own, and nothing keeps two such threads apart.  Here an
    attempt is cut at the points where it reads or writes [self._coapClient],
    so that the steps of several attempts can be taken in any order. *)

(** Where a thread stands in [_startObserve], with its local variables. *)
Inductive Pc :=
| pc_start (hostAddrTuple : SockAddr)
| pc_check (hostTuple : string * Z) (msg : CoapMessage)
| pc_construct (hostTuple : string * Z) (msg : CoapMessage)
| pc_store (msg : CoapMessage) (client : CoapClient)
| pc_register (msg : CoapMessage)
| pc_log (msg : CoapMessage)
| pc_send (msg : CoapMessage)
| pc_done.

(** One more client has been constructed. *)
Definition count_client (w : World) : World :=
  {| self := self w; now := now w; timers := timers w; logged := logged w;
     sent := sent w; replies := replies w; clientsCreated := S (clientsCreated w) |}.

(** The rest of the [try] after a call: on, or into the [except] clause. *)
Definition caught {A} (r : Outcome A * World) (k : A -> World -> Pc * World)
  : Pc * World :=
  match r with
  | (Returned x, w) => k x w
  | (Raised e, w) => (pc_done, log_exception catch_all e w)
  end.

(** One step of a thread: the request is built; [self._coapClient] is tested;
    the client is constructed; it is stored; the handler is registered on the
    client stored by then; the query is logged; the request is sent through the
    client stored by then. *)
Definition thread_step (o : Oracle) (pc : Pc) (w : World) : Pc * World :=
  match pc with
  | pc_start hostAddrTuple =>
      let hostTuple := (sa_host hostAddrTuple, sa_port hostAddrTuple) in
      caught (create_message o hostTuple w) (fun msg w => (pc_check hostTuple msg, w))
  | pc_check hostTuple msg =>
      match _coapClient (self w) with
      | None => (pc_construct hostTuple msg, w)
      | Some _ => (pc_log msg, w)
      end
  | pc_construct hostTuple msg =>
      caught (external o at_CoapClient w)
        (fun _ w =>
           (pc_store msg {| clientId := clientsCreated w;
                            sourcePort := _sourcePort (self w);
                            dest := hostTuple; responseHook := [] |},
            count_client w))
  | pc_store msg client =>
      (pc_register msg, set_self (set_coapClient (Some client) (self w)) w)
  | pc_register msg =>
      caught (registerForResponse o cb_observeTemp w) (fun _ w => (pc_log msg, w))
  | pc_log msg => (pc_send msg, log DEBUG "Sending query" w)
  | pc_send msg => caught (send o msg w) (fun _ w => (pc_done, w))
  | pc_done => (pc_done, w)
  end.

(** A thread on its own, for a number of steps. *)
Fixpoint thread_run (steps : nat) (o : Oracle) (pc : Pc) (w : World) : Pc * World :=
  match steps with
  | O => (pc, w)
  | S n => let st := thread_step o pc w in thread_run n o (fst st) (snd st)
  end.

(** The threads of the attempts under way, each with its oracle. *)
Definition Pool : Type := list (Oracle * Pc).

(** The timer's thread starts: as [fire], but the attempt is only begun. *)
Definition spawn (i : nat) (o : Oracle) (st : World * Pool) : World * Pool :=
  match timers (fst st) !! i with
  | Some t =>
      if expired t (fst st) then
        let w := set_timers (delete i (timers (fst st))) (fst st) in
        match function t with
        | cb_startObserve => (w, snd st ++ [(o, pc_start (args t))])
        | _ => (w, snd st)
        end
      else st
  | None => st
  end.

(** Thread [k] takes one step. *)
Definition sched_step (st : World * Pool) (k : nat) : World * Pool :=
  match snd st !! k with
  | Some (o, pc) =>
      let next := thread_step o pc (fst st) in
      (snd next, <[k := (o, fst next)]> (snd st))
  | None => st
  end.

Definition interleave (sched : list nat) (st : World * Pool) : World * Pool :=
  fold_left sched_step sched st.

(** Both threads pass the test of [self._coapClient] before either stores its
    client. *)
Definition racing : list nat :=
  [0; 0; 0; 1; 1; 1; 0; 0; 0; 0; 1; 1; 1; 1]%nat.

(** Attempts run one after another, none overlapping another. *)
Definition attempts_in_turn (l : list (Oracle * SockAddr)) (w : World) : World :=
  fold_left (fun w oa => snd (_startObserve (fst oa) (snd oa) w)) l w.


(** The record the [except] clause of [_startObserve] logs. *)
Definition caught_record (e : Exception) : LogRecord :=
  {| level := ERROR; text := catch_all; exc_info := Some e |}.

Definition query_record : LogRecord :=
  {| level := DEBUG; text := "Sending query"; exc_info := None |}.

(** * Properties *)

(** ** The host name *)

Lemma split_nonempty sep s : split sep s <> [].
Proof.
  destruct s as [|c rest]; simpl; [discriminate|].
  destruct (Ascii.eqb c sep); [discriminate|].
  destruct (split sep rest); discriminate.
Qed.

Lemma join_cons sep x l :
  l <> [] -> join sep (x :: l) = x +:+ String sep (join sep l).
Proof. destruct l; [congruence | reflexivity]. Qed.

(** Splitting loses nothing: joining the segments gives the string back. *)
Lemma join_split sep s : join sep (split sep s) = s.
Proof.
  induction s as [|c rest IH]; simpl; [reflexivity|].
  destruct (Ascii.eqb_spec c sep) as [->|Hne].
  - rewrite join_cons by apply split_nonempty. simpl. now rewrite IH.
  - pose proof (split_nonempty sep rest) as Hnil.
    destruct (split sep rest) as [|seg segs]; [congruence|].
    destruct segs as [|seg' segs].
    + simpl in *. now rewrite IH.
    + rewrite join_cons by discriminate.
      rewrite join_cons in IH by discriminate.
      rewrite <- IH. reflexivity.
Qed.

Lemma split_segments_clean sep s :
  Forall (fun seg => has_char sep seg = false) (split sep s).
Proof.
  induction s as [|c rest IH]; simpl.
  - repeat constructor.
  - destruct (Ascii.eqb_spec c sep) as [->|Hne].
    + constructor; [reflexivity | exact IH].
    + destruct (split sep rest) as [|seg segs]; simpl.
      * repeat constructor. simpl.
        destruct (Ascii.eqb_spec c sep); [congruence | reflexivity].
      * inversion IH as [|? ? Hseg Hsegs]; subst.
        constructor; [|exact Hsegs]. simpl.
        destruct (Ascii.eqb_spec c sep); [congruence | exact Hseg].
Qed.

Lemma append_cons c (x y : string) : String c x +:+ y = String c (x +:+ y).
Proof. reflexivity. Qed.

Lemma append_assoc_cons (x front : string) sep tail :
  x +:+ String sep (front +:+ String sep tail)
  = (x +:+ String sep front) +:+ String sep tail.
Proof.
  induction x as [|c x IH]; [reflexivity|].
  now rewrite !append_cons, IH.
Qed.

Lemma join_last sep l :
  l <> [] ->
  join sep l = item_last l \/
  exists front, join sep l = front +:+ String sep (item_last l).
Proof.
  induction l as [|x l IH]; [congruence|]. intros _.
  destruct l as [|y l]; [now left|]. right.
  rewrite join_cons by discriminate.
  change (item_last (x :: y :: l)) with (item_last (y :: l)).
  destruct IH as [IH|[front IH]]; [discriminate| |]; rewrite IH.
  - now exists x.
  - exists (x +:+ String sep front). apply append_assoc_cons.
Qed.

Lemma item_last_in l : l <> [] -> In (item_last l) l.
Proof.
  induction l as [|x l IH]; [congruence|]. intros _.
  destruct l as [|y l]; [now left|]. right. apply IH. discriminate.
Qed.

Lemma split_last_segment s : last_segment s (item_last (split colon s)).
Proof.
  split.
  - pose proof (split_segments_clean colon s) as Hclean.
    rewrite List.Forall_forall in Hclean. apply Hclean, item_last_in, split_nonempty.
  - pose proof (join_last colon (split colon s) (split_nonempty _ _)) as H.
    now rewrite join_split in H.
Qed.

Lemma has_char_after front c tail : has_char c (front +:+ String c tail) = true.
Proof.
  induction front as [|d front IH].
  - simpl. now rewrite Ascii.eqb_refl.
  - rewrite append_cons. simpl. rewrite IH. apply orb_true_r.
Qed.

Lemma colon_split_unique front1 front2 t1 t2 :
  has_char colon t1 = false -> has_char colon t2 = false ->
  front1 +:+ String colon t1 = front2 +:+ String colon t2 -> t1 = t2.
Proof.
  revert front2. induction front1 as [|c f1 IH]; intros [|d f2] H1 H2 Heq;
    rewrite ?append_cons in Heq; inversion Heq; subst.
  - reflexivity.
  - rewrite has_char_after in H1. discriminate.
  - rewrite has_char_after in H2. discriminate.
  - eapply IH; eauto.
Qed.

(** The last segment is determined by the address. *)
Lemma last_segment_unique a t1 t2 :
  last_segment a t1 -> last_segment a t2 -> t1 = t2.
Proof.
  intros [H1 [E1|[f1 E1]]] [H2 [E2|[f2 E2]]]; subst.
  - reflexivity.
  - rewrite has_char_after in H1. discriminate.
  - rewrite has_char_after in H2. discriminate.
  - eapply colon_split_unique; eauto.
Qed.

(** C7. The derived host name is a function of the address alone: the tag
    [mote-] followed by the last colon-delimited segment of the address.  The
    host [_createHost] builds carries this name, and for the address
    [10.0.0.5:5683] it is the tag followed by [5683]. *)
Theorem host_name_is_tag_and_last_segment :
  (forall host, exists tail,
      last_segment (address host) tail /\ getInvariantName host = "mote-" +:+ tail) /\
  (forall a n1 n2,
      getInvariantName {| address := a; name := n1 |}
      = getInvariantName {| address := a; name := n2 |}) /\
  (forall resource, exists host,
      _createHost resource = Some host /\
      address host = sa_host (sourceAddress resource) /\
      name host = getInvariantName host) /\
  getInvariantName {| address := "10.0.0.5:5683"; name := "" |} = "mote-" +:+ "5683".
Proof.
  repeat split.
  - intros host. exists (item_last (split colon (address host))).
    split; [apply split_last_segment | reflexivity].
  - intros resource. eexists. repeat split.
Qed.

(** ** The registry *)

Lemma find_host_None a hosts :
  find_host a hosts = None <-> (forall h, h ∈ hosts -> address h <> a).
Proof.
  unfold find_host. split.
  - intros Hnone h Hin. apply list_elem_of_In in Hin.
    apply (List.find_none _ _ Hnone) in Hin. now apply String.eqb_neq.
  - intros Hall. destruct (List.find _ hosts) as [h|] eqn:Hfind; [|reflexivity].
    apply List.find_some in Hfind as [Hin Heq].
    apply String.eqb_eq in Heq. apply list_elem_of_In in Hin.
    now destruct (Hall h Hin).
Qed.

Lemma find_host_Some a hosts h :
  find_host a hosts = Some h -> h ∈ hosts /\ address h = a.
Proof.
  unfold find_host. intros Hfind. apply List.find_some in Hfind as [Hin Heq].
  split; [now apply list_elem_of_In | now apply String.eqb_eq].
Qed.

Lemma find_host_known a w :
  known a w <-> exists h, find_host a (_hosts (self w)) = Some h.
Proof.
  split.
  - intros (h & Hin & Heq).
    destruct (find_host a (_hosts (self w))) as [h'|] eqn:Hfind; [now exists h'|].
    rewrite find_host_None in Hfind. now destruct (Hfind h Hin).
  - intros [h Hfind]. apply find_host_Some in Hfind. now exists h.
Qed.

(** The three ways through [_postResource]. *)
Lemma postResource_unknown resource w :
  path resource <> "/dh/lo" ->
  _postResource resource w
  = (log WARNING ("Unknown path: " +:+ path resource)
       (log DEBUG ("POST resource path is " +:+ path resource) w),
     set_resultCode (OfClient NotFound) (set_resultClass ClientError resource)).
Proof.
  intros Hpath. unfold _postResource.
  apply String.eqb_neq in Hpath. now rewrite Hpath.
Qed.

Lemma postResource_found resource w host :
  path resource = "/dh/lo" ->
  find_host (sa_host (sourceAddress resource)) (_hosts (self w)) = Some host ->
  _postResource resource w
  = (Timer_start 2 cb_startObserve (sourceAddress resource)
       (log INFO ("/dh/lo: Found host " +:+ name host)
          (log DEBUG ("/dh/lo: received from " +:+ sa_host (sourceAddress resource))
             (log DEBUG ("POST resource path is " +:+ path resource) w))),
     resource).
Proof.
  intros Hpath Hfind. unfold _postResource.
  apply String.eqb_eq in Hpath. rewrite Hpath. simpl. now rewrite Hfind.
Qed.

Lemma postResource_new resource w :
  path resource = "/dh/lo" ->
  find_host (sa_host (sourceAddress resource)) (_hosts (self w)) = None ->
  exists host,
    _createHost resource = Some host /\
    _postResource resource w
    = (Timer_start 2 cb_startObserve (sourceAddress resource)
         (log INFO ("/dh/lo: Created host for " +:+ address host)
            (set_self (set_hosts (_hosts (self w) ++ [host]) (self w))
               (log DEBUG ("/dh/lo: received from " +:+ sa_host (sourceAddress resource))
                  (log DEBUG ("POST resource path is " +:+ path resource) w)))),
       set_resultCode (OfSuccess Created) (set_resultClass Success resource)).
Proof.
  intros Hpath Hfind. eexists. split; [reflexivity|].
  unfold _postResource.
  apply String.eqb_eq in Hpath. rewrite Hpath. simpl. now rewrite Hfind.
Qed.

Lemma hosts_at_unique a hosts :
  NoDup (address <$> hosts) -> (exists h, h ∈ hosts /\ address h = a) ->
  length (hosts_at a hosts) = 1%nat.
Proof.
  unfold hosts_at. induction hosts as [|h l IH]; intros Hnd (x & Hin & Hx).
  - now apply elem_of_nil in Hin.
  - rewrite fmap_cons in Hnd. apply NoDup_cons in Hnd as [Hfresh Hnd].
    rewrite filter_cons. destruct (decide (address h = a)) as [Hh|Hh].
    + destruct (filter (fun h0 => address h0 = a) l) as [|y rest] eqn:Hrest;
        [reflexivity|].
      assert (y ∈ filter (fun h0 => address h0 = a) l) as Hy
        by (rewrite Hrest; apply elem_of_cons; now left).
      apply list_elem_of_filter in Hy as [Hya Hy].
      destruct Hfresh. rewrite Hh, <- Hya. now apply list_elem_of_fmap_2.
    + apply IH; [exact Hnd|]. exists x. split; [|exact Hx].
      apply elem_of_cons in Hin as [->|Hin]; [congruence | exact Hin].
Qed.

(** ** The Observe registration *)

Lemma randint_range o a b k : a <= b -> a <= randint o a b k <= b.
Proof.
  intros Hab. unfold randint.
  pose proof (Z.mod_pos_bound (entropy o k) (b - a + 1)). lia.
Qed.

Lemma setitem_in_range b i v w :
  (i < length b)%nat -> 0 <= v <= 255 ->
  bytearray_setitem b i v w = (Returned (<[i := v]> b), w).
Proof.
  intros Hi Hv. unfold bytearray_setitem.
  apply Nat.ltb_lt in Hi. rewrite Hi.
  assert ((0 <=? v) && (v <? 256) = true) as ->; [|reflexivity].
  apply andb_true_iff. split; [apply Z.leb_le | apply Z.ltb_lt]; lia.
Qed.

(** Building the request leaves the world alone; it raises at the first
    failing call, and yields [observe_request] when none fails. *)
Lemma create_message_eq o hostTuple w :
  create_message o hostTuple w
  = match List.find (fails o) message_sites with
    | Some site => (Raised (ExternalError site), w)
    | None => (Returned (observe_request o hostTuple), w)
    end.
Proof.
  unfold create_message, CoapMessage_new, addOption, message_sites, bind, external.
  cbn [List.find].
  destruct (fails o at_CoapMessage); [reflexivity|].
  destruct (fails o (at_addOption 0)); [reflexivity|].
  destruct (fails o (at_addOption 1)); [reflexivity|].
  destruct (fails o (at_addOption 2)); [reflexivity|].
  cbn [ret token set_token bytearray repeat].
  rewrite setitem_in_range by (first [ simpl; lia | apply randint_range; lia ]).
  rewrite setitem_in_range by (first [ simpl; lia | apply randint_range; lia ]).
  reflexivity.
Qed.

Lemma create_client_eq o hostTuple w :
  create_client o hostTuple w
  = match _coapClient (self w) with
    | Some _ => (Returned tt, w)
    | None =>
        if fails o at_CoapClient then (Raised (ExternalError at_CoapClient), w)
        else if fails o at_registerForResponse then
          (Raised (ExternalError at_registerForResponse), with_new_client hostTuple [] w)
        else (Returned tt, with_new_client hostTuple [cb_observeTemp] w)
    end.
Proof.
  unfold create_client. destruct (_coapClient (self w)); [reflexivity|].
  unfold CoapClient_new, registerForResponse, with_coapClient, bind, external, modify.
  destruct (fails o at_CoapClient); [reflexivity|]. cbn.
  destruct (fails o at_registerForResponse); reflexivity.
Qed.

Lemma send_eq o msg w c :
  _coapClient (self w) = Some c ->
  send o msg w
  = if fails o at_send then (Raised (ExternalError at_send), w)
    else (Returned tt, with_sent (clientId c) msg w).
Proof.
  intros Hc. unfold send, with_coapClient, bind, external, modify. rewrite Hc.
  destruct (fails o at_send); reflexivity.
Qed.

(** [_startObserve] always returns, and leaves [attempt_world]. *)
Lemma startObserve_eq o a w :
  _startObserve o a w = (Returned tt, attempt_world o a w).
Proof.
  unfold _startObserve, try_except, _startObserve_body, attempt_world.
  unfold bind at 1. rewrite create_message_eq.
  destruct (List.find (fails o) message_sites) as [site|]; [reflexivity|].
  unfold bind at 1. rewrite create_client_eq.
  destruct (_coapClient (self w)) as [c|] eqn:Hc.
  - unfold bind, modify. rewrite (send_eq _ _ _ c) by exact Hc.
    unfold send_world. destruct (fails o at_send); reflexivity.
  - destruct (fails o at_CoapClient); [reflexivity|].
    destruct (fails o at_registerForResponse); [reflexivity|].
    unfold bind, modify. erewrite send_eq by reflexivity.
    unfold send_world. destruct (fails o at_send); reflexivity.
Qed.

Lemma try_except_outcome o a w :
  match _startObserve_body o a w with
  | (Returned _, wb) => attempt_world o a w = wb
  | (Raised e, wb) => attempt_world o a w = log_exception catch_all e wb
  end.
Proof.
  pose proof (startObserve_eq o a w) as Heq.
  unfold _startObserve, try_except in Heq.
  destruct (_startObserve_body o a w) as [[[]|e] wb]; now inversion Heq.
Qed.

Ltac attempt_frame :=
  unfold attempt_world, send_world; repeat case_match; reflexivity.

Lemma attempt_hosts o a w : _hosts (self (attempt_world o a w)) = _hosts (self w).
Proof. attempt_frame. Qed.

Lemma attempt_server o a w :
  _coapServer (self (attempt_world o a w)) = _coapServer (self w).
Proof. attempt_frame. Qed.

Lemma attempt_replies o a w : replies (attempt_world o a w) = replies w.
Proof. attempt_frame. Qed.

Lemma attempt_timers o a w : timers (attempt_world o a w) = timers w.
Proof. attempt_frame. Qed.

Lemma attempt_keeps_client o a w c :
  _coapClient (self w) = Some c -> _coapClient (self (attempt_world o a w)) = Some c.
Proof.
  intros Hc. unfold attempt_world, send_world. rewrite Hc.
  repeat case_match; exact Hc.
Qed.




(** ** Steps of the surroundings *)

Lemma serve_GET resource w :
  wired w ->
  serve GET resource w = add_reply resource (fst (_getResource resource w)).
Proof. intros [Hget _]. unfold serve, trigger. now rewrite Hget. Qed.

Lemma serve_POST resource w :
  wired w ->
  serve POST resource w
  = add_reply (snd (_postResource resource w)) (fst (_postResource resource w)).
Proof. intros [_ Hpost]. unfold serve, trigger. now rewrite Hpost. Qed.

Lemma postResource_hosts resource w :
  _hosts (self (fst (_postResource resource w))) = _hosts (self w) \/
  (find_host (sa_host (sourceAddress resource)) (_hosts (self w)) = None /\
   exists host, address host = sa_host (sourceAddress resource) /\
     _hosts (self (fst (_postResource resource w))) = _hosts (self w) ++ [host]).
Proof.
  unfold _postResource. destruct (String.eqb _ _); [|now left]. cbn.
  destruct (find_host _ _) eqn:Hfind; [now left|].
  right. split; [reflexivity|]. eexists. split; [|reflexivity]. reflexivity.
Qed.

Lemma postResource_frame resource w :
  let w' := fst (_postResource resource w) in
  _coapServer (self w') = _coapServer (self w) /\
  _sourcePort (self w') = _sourcePort (self w) /\
  _coapClient (self w') = _coapClient (self w) /\
  clientsCreated w' = clientsCreated w /\
  sent w' = sent w /\ replies w' = replies w /\ now w' = now w.
Proof.
  unfold _postResource. cbn. repeat case_match; cbn; repeat split.
Qed.

Lemma notify_frame message w :
  self (notify message w) = self w /\ clientsCreated (notify message w) = clientsCreated w
  /\ timers (notify message w) = timers w /\ replies (notify message w) = replies w
  /\ sent (notify message w) = sent w.
Proof.
  unfold notify. destruct (_coapClient (self w)) as [c|]; [|repeat split].
  generalize (responseHook c). intros hook. revert w.
  induction hook as [|cb hook IH]; intros w; [repeat split|].
  cbn [fold_left]. destruct cb; try apply IH.
  destruct (IH (_observeTemp message w)) as (-> & -> & -> & -> & ->). repeat split.
Qed.

Lemma fire_cases i o w :
  fire i o w = w \/
  (exists t, timers w !! i = Some t /\ expired t w = true /\
     fire i o w = set_timers (delete i (timers w)) w) \/
  (exists t, timers w !! i = Some t /\ expired t w = true /\
     function t = cb_startObserve /\
     fire i o w = attempt_world o (args t) (set_timers (delete i (timers w)) w)).
Proof.
  unfold fire. destruct (timers w !! i) as [t|] eqn:Ht; [|now left].
  destruct (expired t w) eqn:Hexp; [|now left].
  destruct (function t) eqn:Hf; try (right; left; now exists t).
  right; right. exists t. rewrite startObserve_eq. repeat split; assumption.
Qed.

Lemma later_refl w : later w w.
Proof.
  repeat split; try tauto. exists []. now rewrite app_nil_r.
Qed.

Lemma later_trans w1 w2 w3 : later w1 w2 -> later w2 w3 -> later w1 w3.
Proof.
  intros (Hs1 & [l1 Hh1] & Hr1 & Hc1 & Hk1) (Hs2 & [l2 Hh2] & Hr2 & Hc2 & Hk2).
  repeat split.
  - now rewrite Hs2.
  - exists (l1 ++ l2). now rewrite Hh2, Hh1, app_assoc.
  - auto.
  - auto.
  - auto.
Qed.

Lemma later_same w w' :
  self w' = self w -> clientsCreated w' = clientsCreated w -> later w w'.
Proof.
  intros Hself Hn. unfold later, registry_ok, client_inv. rewrite Hself, Hn.
  repeat split; try tauto. exists []. now rewrite app_nil_r.
Qed.

Lemma later_wired w w' : later w w' -> wired w -> wired w'.
Proof. intros (Hs & _) Hw. unfold wired. now rewrite Hs. Qed.

Lemma later_known a w w' : later w w' -> known a w -> known a w'.
Proof.
  intros (_ & [l Hl] & _) (h & Hin & Ha). exists h. split; [|exact Ha].
  rewrite Hl. apply elem_of_app. now left.
Qed.

Lemma registry_ok_append hosts host :
  NoDup (address <$> hosts) -> find_host (address host) hosts = None ->
  NoDup (address <$> (hosts ++ [host])).
Proof.
  intros Hnd Hfind. rewrite find_host_None in Hfind.
  rewrite fmap_app. apply NoDup_app. split; [exact Hnd|]. split.
  - intros a Ha Hb. apply list_elem_of_fmap in Ha as (h & -> & Hin).
    cbn in Hb. apply list_elem_of_singleton in Hb.
    now apply (Hfind h Hin).
  - cbn. apply NoDup_singleton.
Qed.

Lemma later_postResource resource w : later w (fst (_postResource resource w)).
Proof.
  destruct (postResource_frame resource w) as (Hs & _ & Hc & Hn & _).
  unfold later, registry_ok, client_inv. rewrite Hs, Hc, Hn.
  repeat split; try tauto.
  - destruct (postResource_hosts resource w) as [->|(_ & h & _ & ->)].
    + exists []. now rewrite app_nil_r.
    + now exists [h].
  - destruct (postResource_hosts resource w) as [->|(Hfind & h & Hh & ->)];
      [tauto|].
    intros Hnd. apply registry_ok_append; [exact Hnd | now rewrite Hh].
Qed.

Lemma attempt_client_inv o a w : client_inv w -> client_inv (attempt_world o a w).
Proof.
  unfold client_inv, attempt_world, send_world.
  destruct (List.find (fails o) message_sites); [cbn; tauto|].
  destruct (_coapClient (self w)) as [c|] eqn:Hc.
  - destruct (fails o at_send); cbn; rewrite Hc; tauto.
  - intros Hn.
    destruct (fails o at_CoapClient); [cbn; now rewrite Hc|].
    destruct (fails o at_registerForResponse); [cbn; now rewrite Hn|].
    destruct (fails o at_send); cbn; now rewrite Hn.
Qed.

Lemma later_attempt o a w : later w (attempt_world o a w).
Proof.
  unfold later, registry_ok.
  rewrite attempt_server, attempt_hosts.
  repeat split; try tauto.
  - exists []. now rewrite app_nil_r.
  - apply attempt_client_inv.
  - apply attempt_keeps_client.
Qed.

Lemma later_step w ev : wired w -> later w (step w ev).
Proof.
  intros Hw. destruct ev as [method resource|dt|i o|message]; cbn [step].
  - destruct method.
    + rewrite serve_GET by exact Hw. now apply later_same.
    + rewrite serve_POST by exact Hw.
      eapply later_trans; [apply later_postResource | now apply later_same].
    + now apply later_same.
    + now apply later_same.
  - now apply later_same.
  - destruct (fire_cases i o w) as [->|[(t & _ & _ & ->)|(t & _ & _ & _ & ->)]].
    + apply later_refl.
    + now apply later_same.
    + eapply later_trans; [|apply later_attempt]. now apply later_same.
  - destruct (notify_frame message w) as (Hs & Hn & _). now apply later_same.
Qed.

Lemma run_app evs1 evs2 w : run (evs1 ++ evs2) w = run evs2 (run evs1 w).
Proof. apply fold_left_app. Qed.

Lemma later_run evs w : wired w -> later w (run evs w).
Proof.
  revert w. induction evs as [|ev evs IH]; intros w Hw; [apply later_refl|].
  cbn [run fold_left]. pose proof (later_step w ev Hw) as Hstep.
  eapply later_trans; [exact Hstep|]. apply IH. eapply later_wired; eauto.
Qed.

Lemma init_wired sp : wired (__init__ sp).
Proof. split; reflexivity. Qed.

Lemma init_registry_ok sp : registry_ok (__init__ sp).
Proof. apply NoDup_nil_2. Qed.

Lemma init_client_inv sp : client_inv (__init__ sp).
Proof. reflexivity. Qed.

(** ** Announcements *)

Lemma serve_POST_known a resource w :
  wired w -> announces a resource -> known a (serve POST resource w).
Proof.
  intros Hw [Hpath Ha]. rewrite serve_POST by exact Hw. unfold known. cbn.
  destruct (find_host (sa_host (sourceAddress resource)) (_hosts (self w)))
    as [h|] eqn:Hfind.
  - rewrite (postResource_found _ _ h Hpath Hfind). cbn.
    apply find_host_Some in Hfind as [Hin Hh]. exists h. now rewrite <- Ha.
  - destruct (postResource_new _ _ Hpath Hfind) as (h & Hh & ->). cbn.
    exists h. split; [apply elem_of_app; right; now apply list_elem_of_singleton|].
    inversion Hh. now rewrite <- Ha.
Qed.

Lemma serve_POST_again a resource w :
  wired w -> announces a resource -> known a w ->
  _hosts (self (serve POST resource w)) = _hosts (self w).
Proof.
  intros Hw [Hpath Ha] Hk. rewrite serve_POST by exact Hw.
  apply find_host_known in Hk as [h Hfind]. rewrite <- Ha in Hfind.
  now rewrite (postResource_found _ _ h Hpath Hfind).
Qed.

Lemma one_host_when_known a w :
  registry_ok w -> known a w -> length (hosts_at a (_hosts (self w))) = 1%nat.
Proof. intros Hr Hk. now apply hosts_at_unique. Qed.

Lemma at_most_one_host a w :
  registry_ok w -> (length (hosts_at a (_hosts (self w))) <= 1)%nat.
Proof.
  intros Hr. destruct (hosts_at a (_hosts (self w))) as [|h rest] eqn:Hat;
    [cbn; lia|].
  assert (h ∈ hosts_at a (_hosts (self w))) as Hin
    by (rewrite Hat; apply elem_of_cons; now left).
  apply list_elem_of_filter in Hin as [Ha Hin].
  rewrite <- Hat, (one_host_when_known a w Hr); [lia|]. now exists h.
Qed.

(** C1. From a fresh collector, once two announcements from address [a] have
    been handled -- whatever else is handled before, between and after them --
    the registry holds exactly one host with address [a]: the second
    announcement finds the host and leaves the registry as it is.  No address
    ever has more than one host. *)
Theorem announcing_twice_keeps_one_host
    (sp : Z) (a : string) (r1 r2 : Resource) (before between after : list Event) :
  announces a r1 -> announces a r2 ->
  let w1 := run (before ++ Inbound POST r1 :: between) (__init__ sp) in
  let w2 := step w1 (Inbound POST r2) in
  length (hosts_at a (_hosts (self w1))) = 1%nat /\
  _hosts (self w2) = _hosts (self w1) /\
  length (hosts_at a (_hosts (self (run after w2)))) = 1%nat /\
  (forall b, (length (hosts_at b (_hosts (self (run after w2)))) <= 1)%nat).
Proof.
  intros H1 H2 w1 w2.
  pose proof (later_run before _ (init_wired sp)) as L0.
  set (w0 := run before (__init__ sp)) in *.
  assert (wired w0) as Hw0 by (eapply later_wired; eauto using init_wired).
  pose proof (later_step w0 (Inbound POST r1) Hw0) as Ls.
  assert (wired (step w0 (Inbound POST r1))) as Hws by (eapply later_wired; eauto).
  pose proof (later_run between _ Hws) as L1.
  assert (w1 = run between (step w0 (Inbound POST r1))) as Ew1
    by (unfold w1; now rewrite run_app).
  rewrite <- Ew1 in L1.
  assert (wired w1) as Hw1 by (eapply later_wired; eauto).
  assert (later (__init__ sp) w1) as Linit
    by (eauto using later_trans).
  assert (registry_ok w1) as Hr1 by (apply Linit, init_registry_ok).
  assert (known a w1) as Hk1.
  { eapply later_known; [exact L1|]. now apply serve_POST_known. }
  pose proof (later_step w1 (Inbound POST r2) Hw1) as L2. fold w2 in L2.
  assert (wired w2) as Hw2 by (eapply later_wired; eauto).
  pose proof (later_run after w2 Hw2) as L3.
  split; [now apply one_host_when_known|].
  split; [now apply (serve_POST_again a)|].
  assert (registry_ok (run after w2)) as Hr3 by apply L3, L2, Hr1.
  split; [|intros b; now apply at_most_one_host].
  apply one_host_when_known; [exact Hr3|].
  eapply later_known; [exact L3|]. eapply later_known; eauto.
Qed.

Lemma announcing_twice_keeps_one_host_witness :
  announces "1.2.3.4" (request "/dh/lo" mote_a) /\
  announces "1.2.3.4" (request "/dh/lo" mote_a) /\
  let w1 := run ([Tick 1] ++ Inbound POST (request "/dh/lo" mote_a)
                   :: [Inbound POST (request "/dh/lo" mote_b); Tick 2; Expire 0 quiet])
                (__init__ 5682) in
  let w2 := step w1 (Inbound POST (request "/dh/lo" mote_a)) in
  length (hosts_at "1.2.3.4" (_hosts (self w1))) = 1%nat /\
  _hosts (self w2) = _hosts (self w1) /\
  length (hosts_at "1.2.3.4"
            (_hosts (self (run [Inbound GET (request "/dh/tmp" mote_b)] w2)))) = 1%nat /\
  (forall b, (length (hosts_at b
                (_hosts (self (run [Inbound GET (request "/dh/tmp" mote_b)] w2)))) <= 1)%nat).
Proof.
  split; [split; reflexivity|]. split; [split; reflexivity|].
  apply (announcing_twice_keeps_one_host 5682 "1.2.3.4"
           (request "/dh/lo" mote_a) (request "/dh/lo" mote_a)
           [Tick 1] [Inbound POST (request "/dh/lo" mote_b); Tick 2; Expire 0 quiet]
           [Inbound GET (request "/dh/tmp" mote_b)]); split; reflexivity.
Defined.

Lemma not_known_find a w : ~ known a w -> find_host a (_hosts (self w)) = None.
Proof.
  intros Hk. apply find_host_None. intros h Hin Ha. apply Hk. now exists h.
Qed.

Lemma timer_not_expired resource w w' :
  now w' = now w -> expired (observe_timer resource w) w' = false.
Proof. intros Hnow. unfold expired. cbn. rewrite Hnow. apply Z.leb_gt. lia. Qed.

Lemma fire_pending i o t w :
  timers w !! i = Some t -> expired t w = false -> fire i o w = w.
Proof. intros Ht He. unfold fire. now rewrite Ht, He. Qed.

(** C2. An announcement from an address that is not in the registry appends
    exactly one host for it, sets the result to Success / Created and starts
    exactly one timer of 2 time units for [_startObserve] on the source
    address.  The handler itself sends nothing and leaves the client alone, and
    the timer cannot expire while the clock stands where it started. *)
Theorem new_announcement_creates_and_schedules (resource : Resource) (w : World) :
  path resource = "/dh/lo" ->
  ~ known (sa_host (sourceAddress resource)) w ->
  let w' := fst (_postResource resource w) in
  let resource' := snd (_postResource resource w) in
  (exists host,
      _hosts (self w') = _hosts (self w) ++ [host] /\
      address host = sa_host (sourceAddress resource) /\
      name host = getInvariantName host) /\
  resultClass resource' = Some Success /\
  resultCode resource' = Some (OfSuccess Created) /\
  timers w' = timers w ++ [observe_timer resource w] /\
  sent w' = sent w /\
  _coapClient (self w') = _coapClient (self w) /\
  (forall o, fire (length (timers w)) o w' = w').
Proof.
  intros Hpath Hnew w' resource'. apply not_known_find in Hnew.
  destruct (postResource_new resource w Hpath Hnew) as (host & Hhost & Heq).
  unfold w', resource'. rewrite Heq. cbn.
  inversion Hhost; subst host.
  split; [eexists; repeat split|]. repeat split.
  intros o. apply (fire_pending _ _ (observe_timer resource w)).
  - cbn. now rewrite lookup_app_r, Nat.sub_diag by lia.
  - now apply timer_not_expired.
Qed.

Lemma new_announcement_creates_and_schedules_witness :
  path (request "/dh/lo" mote_a) = "/dh/lo" /\
  ~ known (sa_host (sourceAddress (request "/dh/lo" mote_a))) (__init__ 5682) /\
  resultClass (snd (_postResource (request "/dh/lo" mote_a) (__init__ 5682)))
  = Some Success.
Proof.
  assert (~ known (sa_host (sourceAddress (request "/dh/lo" mote_a))) (__init__ 5682))
    as Hnew by (intros (h & Hin & _); cbn in Hin; now apply elem_of_nil in Hin).
  split; [reflexivity|]. split; [exact Hnew|].
  apply (new_announcement_creates_and_schedules
           (request "/dh/lo" mote_a) (__init__ 5682) eq_refl Hnew).
Defined.

(** C3. An announcement from an address that is in the registry leaves the
    resource as it came -- neither result field is set -- and the collector
    with its registry as it was, and starts exactly one timer of 2 time units
    for [_startObserve] on the source address. *)
Theorem known_announcement_rearms (resource : Resource) (w : World) :
  path resource = "/dh/lo" ->
  known (sa_host (sourceAddress resource)) w ->
  let w' := fst (_postResource resource w) in
  let resource' := snd (_postResource resource w) in
  resource' = resource /\
  resultClass resource' = resultClass resource /\
  resultCode resource' = resultCode resource /\
  self w' = self w /\
  timers w' = timers w ++ [observe_timer resource w] /\
  sent w' = sent w /\
  (forall o, fire (length (timers w)) o w' = w').
Proof.
  intros Hpath Hk w' resource'. apply find_host_known in Hk as [host Hfind].
  unfold w', resource'. rewrite (postResource_found resource w host Hpath Hfind).
  cbn. repeat split.
  intros o. apply (fire_pending _ _ (observe_timer resource w)).
  - cbn. now rewrite lookup_app_r, Nat.sub_diag by lia.
  - now apply timer_not_expired.
Qed.

Lemma known_announcement_rearms_witness :
  let w := fst (_postResource (request "/dh/lo" mote_a) (__init__ 5682)) in
  path (request "/dh/lo" mote_a) = "/dh/lo" /\
  known (sa_host (sourceAddress (request "/dh/lo" mote_a))) w /\
  snd (_postResource (request "/dh/lo" mote_a) w) = request "/dh/lo" mote_a.
Proof.
  intros w.
  assert (known (sa_host (sourceAddress (request "/dh/lo" mote_a))) w) as Hk.
  { exists {| address := "1.2.3.4"; name := "mote-1.2.3.4" |}.
    split; [apply list_elem_of_singleton|]; reflexivity. }
  split; [reflexivity|]. split; [exact Hk|].
  apply (known_announcement_rearms (request "/dh/lo" mote_a) w eq_refl Hk).
Defined.

(** ** Unrecognized paths *)

(** C4, as stated, fails for GET: [_getResource] only logs, so a GET request
    to an unrecognized path comes back with no result set. *)
Lemma get_unknown_path_sets_no_status :
  let resource := request "/dh/unknown" mote_a in
  snd (_getResource resource (__init__ 5682)) = resource /\
  resultClass (snd (_getResource resource (__init__ 5682))) <> Some ClientError /\
  resultCode (snd (_getResource resource (__init__ 5682))) <> Some (OfClient NotFound) /\
  replies (serve GET resource (__init__ 5682)) = [resource].
Proof. cbn. repeat split; discriminate. Qed.

(** C4, amended.  A POST request to any path but the announcement path gets
    the result ClientError / NotFound, and neither the collector (registry
    included) nor the pending timers change, and nothing is sent.  A GET
    request, whatever its path -- the announcement path included -- changes
    neither the collector nor the pending timers and sends nothing. *)
Theorem unknown_path_not_found :
  (forall resource w,
      path resource <> "/dh/lo" ->
      let w' := fst (_postResource resource w) in
      let resource' := snd (_postResource resource w) in
      resultClass resource' = Some ClientError /\
      resultCode resource' = Some (OfClient NotFound) /\
      self w' = self w /\ timers w' = timers w /\ sent w' = sent w) /\
  (forall resource w,
      let w' := fst (_getResource resource w) in
      self w' = self w /\ timers w' = timers w /\ sent w' = sent w) /\
  (forall resource w,
      wired w ->
      _hosts (self (serve GET resource w)) = _hosts (self w) /\
      timers (serve GET resource w) = timers w /\
      sent (serve GET resource w) = sent w).
Proof.
  split; [|split].
  - intros resource w Hpath w' resource'. unfold w', resource'.
    rewrite (postResource_unknown resource w Hpath). cbn. repeat split.
  - intros resource w. cbn. repeat split.
  - intros resource w Hw. rewrite serve_GET by exact Hw. cbn. repeat split.
Qed.

Lemma unknown_path_not_found_witness :
  path (request "/dh/unknown" mote_a) <> "/dh/lo" /\
  wired (__init__ 5682) /\
  resultClass (snd (_postResource (request "/dh/unknown" mote_a) (__init__ 5682)))
  = Some ClientError /\
  _hosts (self (serve GET (request "/dh/lo" mote_a) (__init__ 5682)))
  = _hosts (self (__init__ 5682)).
Proof.
  assert (path (request "/dh/unknown" mote_a) <> "/dh/lo") as Hpath by discriminate.
  split; [exact Hpath|]. split; [apply init_wired|].
  destruct unknown_path_not_found as (Hpost & _ & Hget).
  split.
  - apply (Hpost (request "/dh/unknown" mote_a) (__init__ 5682) Hpath).
  - apply (Hget (request "/dh/lo" mote_a) (__init__ 5682) (init_wired 5682)).
Defined.

(** ** Host creation *)

(** C10. [_createHost] always yields a host.  So [_postResource] never logs an
    error and never writes ServerError into the result, and an announcement
    from an address that is not in the registry comes back Success / Created
    with its timer started. *)
Theorem host_creation_never_fails :
  (forall resource, exists host,
      _createHost resource = Some host /\
      address host = sa_host (sourceAddress resource)) /\
  (forall resource w, exists records,
      logged (fst (_postResource resource w)) = logged w ++ records /\
      Forall (fun record => level record <> ERROR) records) /\
  (forall resource w,
      resultClass (snd (_postResource resource w)) = Some ServerError ->
      snd (_postResource resource w) = resource) /\
  (forall resource w,
      path resource = "/dh/lo" ->
      ~ known (sa_host (sourceAddress resource)) w ->
      resultClass (snd (_postResource resource w)) = Some Success /\
      resultCode (snd (_postResource resource w)) = Some (OfSuccess Created) /\
      timers (fst (_postResource resource w)) = timers w ++ [observe_timer resource w]).
Proof.
  split; [intros resource; eexists; split; reflexivity|].
  split; [|split].
  - intros resource w.
    destruct (String.eqb_spec (path resource) "/dh/lo") as [Hpath|Hpath].
    + destruct (find_host (sa_host (sourceAddress resource)) (_hosts (self w)))
        as [h|] eqn:Hfind.
      * rewrite (postResource_found _ _ h Hpath Hfind). cbn.
        eexists. rewrite <- !app_assoc. split; [reflexivity|].
        repeat constructor; discriminate.
      * destruct (postResource_new _ _ Hpath Hfind) as (h & _ & ->). cbn.
        eexists. rewrite <- !app_assoc. split; [reflexivity|].
        repeat constructor; discriminate.
    + rewrite (postResource_unknown _ _ Hpath). cbn.
      eexists. rewrite <- !app_assoc. split; [reflexivity|].
      repeat constructor; discriminate.
  - intros resource w.
    destruct (String.eqb_spec (path resource) "/dh/lo") as [Hpath|Hpath].
    + destruct (find_host (sa_host (sourceAddress resource)) (_hosts (self w)))
        as [h|] eqn:Hfind.
      * now rewrite (postResource_found _ _ h Hpath Hfind).
      * destruct (postResource_new _ _ Hpath Hfind) as (h & _ & ->). discriminate.
    + rewrite (postResource_unknown _ _ Hpath). discriminate.
  - intros resource w Hpath Hnew. apply not_known_find in Hnew.
    destruct (postResource_new _ _ Hpath Hnew) as (h & _ & ->). cbn. repeat split.
Qed.

Lemma host_creation_never_fails_witness :
  path (request "/dh/lo" mote_b) = "/dh/lo" /\
  ~ known (sa_host (sourceAddress (request "/dh/lo" mote_b))) (__init__ 5682) /\
  resultCode (snd (_postResource (request "/dh/lo" mote_b) (__init__ 5682)))
  = Some (OfSuccess Created).
Proof.
  assert (~ known (sa_host (sourceAddress (request "/dh/lo" mote_b))) (__init__ 5682))
    as Hnew by (intros (h & Hin & _); cbn in Hin; now apply elem_of_nil in Hin).
  split; [reflexivity|]. split; [exact Hnew|].
  apply (proj2 (proj2 (proj2 host_creation_never_fails))
           (request "/dh/lo" mote_b) (__init__ 5682) eq_refl Hnew).
Defined.

(** ** Notifications *)

Lemma pretty_N_go_grows x s :
  (String.length s <= String.length (pretty_N_go x s))%nat.
Proof.
  revert s. induction (N.lt_wf_0 x) as [x _ IH]. intros s.
  destruct (N.eq_dec x 0) as [->|Hx]; [now rewrite pretty_N_go_0|].
  rewrite pretty_N_go_step by lia.
  assert (x `div` 10 < x)%N as Hlt by (apply N.div_lt; lia).
  specialize (IH _ Hlt (String (pretty_N_char (x `mod` 10)) s)).
  cbn [String.length] in IH. lia.
Qed.

Lemma format_int_digit (d : N) : (d < 10)%N -> String.length (format_int d) = 1%nat.
Proof.
  intros Hd.
  assert (d = 0 \/ d = 1 \/ d = 2 \/ d = 3 \/ d = 4 \/ d = 5 \/ d = 6 \/ d = 7
          \/ d = 8 \/ d = 9)%N as Hcases by lia.
  repeat (destruct Hcases as [->|Hcases]; [reflexivity|]). now subst.
Qed.

Lemma format_int_wide (d : N) : (10 <= d)%N -> (2 <= String.length (format_int d))%nat.
Proof.
  intros Hd. unfold format_int, pretty, pretty_N.
  destruct (decide (d = 0%N)) as [->|_]; [lia|].
  rewrite pretty_N_go_step by lia.
  rewrite pretty_N_go_step by (apply N.div_str_pos; lia).
  etransitivity; [|apply pretty_N_go_grows]. cbn [String.length]. lia.
Qed.

(** The prefix [_observeTemp] computes pads the detail to two digits. *)
Lemma prefix_is_zfill (d : N) :
  (if (d <? 10)%N then "0" else "") +:+ format_int d = zfill 2 (format_int d).
Proof.
  unfold zfill. destruct (N.ltb_spec d 10) as [Hd|Hd].
  - now rewrite format_int_digit.
  - pose proof (format_int_wide d Hd) as Hlen.
    replace (2 - String.length (format_int d))%nat with 0%nat by lia. reflexivity.
Qed.

Lemma append_assoc (x y z : string) : (x +:+ y) +:+ z = x +:+ y +:+ z.
Proof.
  induction x as [|c x IH]; [reflexivity|]. now rewrite !append_cons, IH.
Qed.

(** C5, as stated, fails: the recorded text starts with [Response code: ], so
    for class 2, detail 5 and value 23.5 it is not ["2.05; value 23.5"]. *)
Lemma notification_record_has_prefix :
  text <$> logged (_observeTemp reading (__init__ 5682))
  = ["Response code: 2.05; value 23.5"] /\
  text <$> logged (_observeTemp reading (__init__ 5682)) <> ["2.05; value 23.5"].
Proof. split; [reflexivity | discriminate]. Qed.

(** C5, amended.  For every notification the reader logs one INFO record whose
    text is [Response code: ] followed by the class, a dot, the detail
    zero-padded to two digits, [; value ] and the typed payload, and changes
    nothing else; for class 2, detail 5 and value 23.5 the text is
    ["Response code: 2.05; value 23.5"]. *)
Theorem notification_is_recorded :
  (forall message w,
      logged (_observeTemp message w)
      = logged w ++ [{| level := INFO;
                        text := "Response code: " +:+ status_value message;
                        exc_info := None |}] /\
      self (_observeTemp message w) = self w /\
      timers (_observeTemp message w) = timers w /\
      sent (_observeTemp message w) = sent w /\
      replies (_observeTemp message w) = replies w) /\
  "Response code: " +:+ status_value reading = "Response code: 2.05; value 23.5".
Proof.
  split; [|reflexivity].
  intros message w. repeat split. unfold _observeTemp, status_value. cbn.
  rewrite <- prefix_is_zfill. now rewrite !append_assoc.
Qed.

(** ** Failures inside an attempt *)

Lemma find_fails_none o sites :
  List.find (fails o) sites = None <-> Forall (fun site => fails o site = false) sites.
Proof.
  induction sites as [|site sites IH]; cbn.
  - split; [constructor | reflexivity].
  - destruct (fails o site) eqn:Hs.
    + split; [discriminate|]. intros H. apply Forall_cons in H as [H _]. congruence.
    + rewrite IH. split; [now constructor|]. intros H. now apply Forall_cons in H as [_ H].
Qed.

(** A failing call on the way to [send], or [send] itself failing, makes the
    body raise, with nothing sent. *)
Lemma body_raises o a w site :
  site ∈ message_sites ++ [at_send] -> fails o site = true ->
  exists e wb, _startObserve_body o a w = (Raised e, wb) /\ sent wb = sent w.
Proof.
  intros Hin Hfail. unfold _startObserve_body.
  unfold bind at 1. rewrite create_message_eq.
  destruct (List.find (fails o) message_sites) as [s|] eqn:Hfind;
    [now eexists _, _|].
  apply find_fails_none in Hfind. rewrite Forall_forall in Hfind.
  apply elem_of_app in Hin as [Hin|Hin];
    [specialize (Hfind _ Hin); congruence|].
  apply list_elem_of_singleton in Hin. subst site.
  unfold bind at 1. rewrite create_client_eq.
  destruct (_coapClient (self w)) as [c|] eqn:Hc.
  - unfold bind, modify. rewrite (send_eq _ _ _ c) by exact Hc.
    rewrite Hfail. now eexists _, _.
  - destruct (fails o at_CoapClient); [now eexists _, _|].
    destruct (fails o at_registerForResponse); [now eexists _, _|].
    unfold bind, modify. erewrite send_eq by reflexivity.
    rewrite Hfail. now eexists _, _.
Qed.

(** The body of the [try] by the first call that raises. *)
Lemma body_eq o a w :
  _startObserve_body o a w
  = match List.find (fails o) message_sites with
    | Some site => (Raised (ExternalError site), w)
    | None =>
        match _coapClient (self w) with
        | Some c =>
            if fails o at_send then
              (Raised (ExternalError at_send), log DEBUG "Sending query" w)
            else (Returned tt,
                  with_sent (clientId c) (observe_request o (sa_host a, sa_port a))
                    (log DEBUG "Sending query" w))
        | None =>
            if fails o at_CoapClient then (Raised (ExternalError at_CoapClient), w)
            else if fails o at_registerForResponse then
              (Raised (ExternalError at_registerForResponse),
               with_new_client (sa_host a, sa_port a) [] w)
            else if fails o at_send then
              (Raised (ExternalError at_send),
               log DEBUG "Sending query"
                 (with_new_client (sa_host a, sa_port a) [cb_observeTemp] w))
            else (Returned tt,
                  with_sent (clientsCreated w) (observe_request o (sa_host a, sa_port a))
                    (log DEBUG "Sending query"
                       (with_new_client (sa_host a, sa_port a) [cb_observeTemp] w)))
        end
    end.
Proof.
  unfold _startObserve_body.
  unfold bind at 1. rewrite create_message_eq.
  destruct (List.find (fails o) message_sites) as [site|]; [reflexivity|].
  unfold bind at 1. rewrite create_client_eq.
  destruct (_coapClient (self w)) as [c|] eqn:Hc.
  - unfold bind, modify. rewrite (send_eq _ _ _ c) by exact Hc.
    destruct (fails o at_send); reflexivity.
  - destruct (fails o at_CoapClient); [reflexivity|].
    destruct (fails o at_registerForResponse); [reflexivity|].
    unfold bind, modify. erewrite send_eq by reflexivity.
    destruct (fails o at_send); reflexivity.
Qed.

(** What an attempt adds to the log, by the way its body ends. *)
Lemma attempt_log o a w :
  match _startObserve_body o a w with
  | (Returned _, wb) =>
      logged (attempt_world o a w) = logged w ++ [query_record]
  | (Raised e, wb) =>
      logged (attempt_world o a w) = logged wb ++ [caught_record e] /\
      exists before,
        logged (attempt_world o a w) = logged w ++ before ++ [caught_record e] /\
        ((before = [] /\ sent (attempt_world o a w) = sent w) \/
         (before = [query_record] /\ e = ExternalError at_send))
  end.
Proof.
  rewrite body_eq. unfold attempt_world, send_world.
  destruct (List.find (fails o) message_sites) as [site|].
  { split; [reflexivity|]. exists []. split; [reflexivity|]. now left. }
  destruct (_coapClient (self w)) as [c|].
  - destruct (fails o at_send); [|reflexivity].
    split; [reflexivity|]. exists [query_record]. cbn.
    split; [now rewrite <- app_assoc | now right].
  - destruct (fails o at_CoapClient).
    { split; [reflexivity|]. exists []. split; [reflexivity|]. now left. }
    destruct (fails o at_registerForResponse).
    { split; [reflexivity|]. exists []. split; [reflexivity|]. now left. }
    destruct (fails o at_send); [|reflexivity].
    split; [reflexivity|]. exists [query_record]. cbn.
    split; [now rewrite <- app_assoc | now right].
Qed.

Lemma last_app_snoc {A} (l1 l2 : list A) (x : A) : last (l1 ++ l2 ++ [x]) = Some x.
Proof. rewrite app_assoc. apply last_snoc. Qed.

(** C6. [_startObserve] always returns: an exception raised while the request
    is built, the client created or the request sent is caught, and the log
    of the attempt ends with exactly one error record, which carries the
    catch-all text and the exception; an attempt whose body returns logs no
    error.  The registry, the replies already given and the pending timers are
    as before the attempt. *)
Theorem startObserve_swallows_failures (o : Oracle) (a : SockAddr) (w : World) :
  exists w',
    _startObserve o a w = (Returned tt, w') /\
    _hosts (self w') = _hosts (self w) /\
    replies w' = replies w /\
    timers w' = timers w /\
    match _startObserve_body o a w with
    | (Returned _, wb) => w' = wb /\ logged w' = logged w ++ [query_record]
    | (Raised e, wb) =>
        logged w' = logged wb ++ [caught_record e] /\
        last (logged w') = Some (caught_record e) /\
        exists before,
          logged w' = logged w ++ before ++ [caught_record e] /\
          (before = [] \/ before = [query_record])
    end /\
    (forall site, site ∈ message_sites ++ [at_send] -> fails o site = true ->
       exists e wb, _startObserve_body o a w = (Raised e, wb) /\
                    last (logged w') = Some (caught_record e)) /\
    (forall site, site ∈ message_sites -> fails o site = true ->
       sent w' = sent w /\ exists e, logged w' = logged w ++ [caught_record e]).
Proof.
  exists (attempt_world o a w).
  split; [apply startObserve_eq|].
  split; [apply attempt_hosts|].
  split; [apply attempt_replies|].
  split; [apply attempt_timers|].
  pose proof (attempt_log o a w) as Hlog.
  pose proof (try_except_outcome o a w) as Hout.
  split; [|split].
  - destruct (_startObserve_body o a w) as [[[]|e] wb].
    + now split.
    + destruct Hlog as (Hlast & before & Hall & Hbefore).
      split; [exact Hlast|]. split; [rewrite Hlast; apply last_snoc|].
      exists before. split; [exact Hall|]. destruct Hbefore as [[? _]|[? _]]; auto.
  - intros site Hin Hfail.
    destruct (body_raises o a w site Hin Hfail) as (e & wb & Hbody & _).
    exists e, wb. split; [exact Hbody|]. rewrite Hbody in Hlog.
    destruct Hlog as (-> & _). apply last_snoc.
  - intros site Hin Hfail.
    assert (exists s, List.find (fails o) message_sites = Some s) as [s Hs].
    { destruct (List.find (fails o) message_sites) as [s|] eqn:Hfind; [now exists s|].
      apply find_fails_none in Hfind. rewrite Forall_forall in Hfind.
      specialize (Hfind site Hin). congruence. }
    unfold attempt_world. rewrite Hs. split; [reflexivity|].
    now exists (ExternalError s).
Qed.

Lemma startObserve_swallows_failures_witness :
  at_send ∈ message_sites ++ [at_send] /\
  fails send_fails at_send = true /\
  exists w' e wb,
    _startObserve send_fails mote_a (__init__ 5682) = (Returned tt, w') /\
    _startObserve_body send_fails mote_a (__init__ 5682) = (Raised e, wb) /\
    last (logged w') = Some (caught_record e).
Proof.
  assert (at_send ∈ message_sites ++ [at_send]) as Hin
    by (apply list_elem_of_In; cbn; tauto).
  split; [exact Hin|]. split; [reflexivity|].
  destruct (startObserve_swallows_failures send_fails mote_a (__init__ 5682))
    as (w' & Hret & _ & _ & _ & _ & Hraise & _).
  destruct (Hraise at_send Hin eq_refl) as (e & wb & Hbody & Hlast).
  now exists w', e, wb.
Defined.

(** ** The request *)

Lemma observe_request_registration o hostTuple :
  observe_registration (observe_request o hostTuple).
Proof.
  pose proof (randint_range o 0 65535 0 ltac:(lia)).
  pose proof (randint_range o 0 255 1 ltac:(lia)).
  pose proof (randint_range o 0 255 2 ltac:(lia)).
  unfold observe_registration. cbn.
  repeat split; try lia; eauto.
Qed.






(** ** The shared client *)

Lemma step_keeps_client_outside_attempts w ev :
  wired w -> (forall i o, ev <> Expire i o) ->
  _coapClient (self (step w ev)) = _coapClient (self w).
Proof.
  intros Hw Hev. destruct ev as [method resource|dt|i o|message]; cbn [step].
  - destruct method.
    + now rewrite serve_GET.
    + rewrite serve_POST by exact Hw. cbn.
      now destruct (postResource_frame resource w) as (_ & _ & -> & _).
    + reflexivity.
    + reflexivity.
  - reflexivity.
  - now destruct (Hev i o).
  - now destruct (notify_frame message w) as (-> & _).
Qed.

Lemma attempt_creates_client o a w :
  _coapClient (self w) = None ->
  Forall (fun site => fails o site = false) creation_sites ->
  _coapClient (self (attempt_world o a w))
  = Some {| clientId := clientsCreated w; sourcePort := _sourcePort (self w);
            dest := (sa_host a, sa_port a); responseHook := [cb_observeTemp] |}.
Proof.
  intros Hc Hok. unfold creation_sites in Hok. apply Forall_app in Hok as [Hmsg Hnew].
  apply find_fails_none in Hmsg.
  apply Forall_cons in Hnew as [Hnew Hreg]. apply Forall_cons in Hreg as [Hreg _].
  unfold attempt_world, send_world. rewrite Hmsg, Hc, Hnew, Hreg.
  destruct (fails o at_send); reflexivity.
Qed.

Lemma run_client_inv sp evs : client_inv (run evs (__init__ sp)).
Proof. apply (later_run evs _ (init_wired sp)), init_client_inv. Qed.

Lemma thread_run_S n o pc w :
  thread_run (S n) o pc w
  = thread_run n o (fst (thread_step o pc w)) (snd (thread_step o pc w)).
Proof. reflexivity. Qed.

Lemma thread_run_done n o w : thread_run n o pc_done w = (pc_done, w).
Proof. induction n as [|n IH]; [reflexivity|]. now rewrite thread_run_S. Qed.

Lemma thread_step_start o a w :
  thread_step o (pc_start a) w
  = match List.find (fails o) message_sites with
    | Some site => (pc_done, log_exception catch_all (ExternalError site) w)
    | None => (pc_check (sa_host a, sa_port a) (observe_request o (sa_host a, sa_port a)), w)
    end.
Proof.
  cbn [thread_step]. rewrite create_message_eq.
  now destruct (List.find (fails o) message_sites).
Qed.

Lemma thread_step_construct o hostTuple msg w :
  thread_step o (pc_construct hostTuple msg) w
  = if fails o at_CoapClient then
      (pc_done, log_exception catch_all (ExternalError at_CoapClient) w)
    else (pc_store msg {| clientId := clientsCreated w;
                          sourcePort := _sourcePort (self w);
                          dest := hostTuple; responseHook := [] |},
          count_client w).
Proof. cbn [thread_step]. unfold external. now destruct (fails o at_CoapClient). Qed.

Lemma thread_step_register o msg w c :
  _coapClient (self w) = Some c ->
  thread_step o (pc_register msg) w
  = if fails o at_registerForResponse then
      (pc_done, log_exception catch_all (ExternalError at_registerForResponse) w)
    else (pc_log msg,
          set_self (set_coapClient
                      (Some {| clientId := clientId c; sourcePort := sourcePort c;
                               dest := dest c;
                               responseHook := responseHook c ++ [cb_observeTemp] |})
                      (self w)) w).
Proof.
  intros Hc. cbn [thread_step].
  unfold registerForResponse, with_coapClient, bind, external, modify. rewrite Hc.
  now destruct (fails o at_registerForResponse).
Qed.

Lemma thread_step_send o msg w c :
  _coapClient (self w) = Some c ->
  thread_step o (pc_send msg) w
  = if fails o at_send then
      (pc_done, log_exception catch_all (ExternalError at_send) w)
    else (pc_done, with_sent (clientId c) msg w).
Proof.
  intros Hc. cbn [thread_step]. rewrite (send_eq _ _ _ c Hc).
  now destruct (fails o at_send).
Qed.

(** A thread that runs alone does what the call of [_startObserve] does. *)
Lemma thread_alone o a w :
  thread_run 7 o (pc_start a) w = (pc_done, attempt_world o a w).
Proof.
  unfold attempt_world, send_world.
  rewrite thread_run_S, thread_step_start.
  destruct (List.find (fails o) message_sites) as [site|];
    [cbn [fst snd]; apply thread_run_done|].
  cbn [fst snd]. rewrite thread_run_S. cbn [thread_step].
  destruct (_coapClient (self w)) as [c|] eqn:Hc; cbn [fst snd].
  - rewrite thread_run_S. cbn [thread_step fst snd].
    rewrite thread_run_S, (thread_step_send _ _ _ c) by exact Hc.
    destruct (fails o at_send); cbn [fst snd]; apply thread_run_done.
  - rewrite thread_run_S, thread_step_construct.
    destruct (fails o at_CoapClient); [cbn [fst snd]; apply thread_run_done|].
    cbn [fst snd]. rewrite thread_run_S. cbn [thread_step fst snd].
    rewrite thread_run_S. erewrite thread_step_register by reflexivity.
    destruct (fails o at_registerForResponse);
      [cbn [fst snd]; apply thread_run_done|].
    cbn [fst snd]. rewrite thread_run_S. cbn [thread_step fst snd].
    rewrite thread_run_S. erewrite thread_step_send by reflexivity.
    destruct (fails o at_send); cbn [fst snd]; apply thread_run_done.
Qed.

(** What one attempt on its own does to the client and to the count of
    clients constructed. *)
Lemma attempt_counts o a w :
  match _coapClient (self w) with
  | Some c =>
      _coapClient (self (attempt_world o a w)) = Some c /\
      clientsCreated (attempt_world o a w) = clientsCreated w
  | None =>
      (_coapClient (self (attempt_world o a w)) = None /\
       clientsCreated (attempt_world o a w) = clientsCreated w) \/
      (exists c, _coapClient (self (attempt_world o a w)) = Some c /\
                 dest c = (sa_host a, sa_port a) /\
                 clientsCreated (attempt_world o a w) = S (clientsCreated w))
  end.
Proof.
  unfold attempt_world, send_world.
  destruct (_coapClient (self w)) as [c|] eqn:Hc.
  - destruct (List.find (fails o) message_sites); [now split|].
    destruct (fails o at_send); now split.
  - destruct (List.find (fails o) message_sites); [now left|].
    destruct (fails o at_CoapClient); [now left|]. right.
    destruct (fails o at_registerForResponse); [eexists; now repeat split|].
    destruct (fails o at_send); eexists; now repeat split.
Qed.

Lemma attempts_in_turn_cons o a l w :
  attempts_in_turn ((o, a) :: l) w = attempts_in_turn l (attempt_world o a w).
Proof. unfold attempts_in_turn. cbn. now rewrite startObserve_eq. Qed.

Lemma attempts_in_turn_keep l w c :
  _coapClient (self w) = Some c ->
  _coapClient (self (attempts_in_turn l w)) = Some c /\
  clientsCreated (attempts_in_turn l w) = clientsCreated w.
Proof.
  revert w. induction l as [|[o a] l IH]; intros w Hc; [now split|].
  rewrite attempts_in_turn_cons.
  pose proof (attempt_counts o a w) as Hstep. rewrite Hc in Hstep.
  destruct Hstep as [Hc' Hn]. destruct (IH _ Hc') as [Hc'' Hn'].
  split; [exact Hc'' | now rewrite Hn', Hn].
Qed.

Lemma attempts_in_turn_once l w :
  _coapClient (self w) = None ->
  (_coapClient (self (attempts_in_turn l w)) = None /\
   clientsCreated (attempts_in_turn l w) = clientsCreated w) \/
  (exists c, _coapClient (self (attempts_in_turn l w)) = Some c /\
             clientsCreated (attempts_in_turn l w) = S (clientsCreated w)).
Proof.
  revert w. induction l as [|[o a] l IH]; intros w Hc; [now left|].
  rewrite attempts_in_turn_cons.
  pose proof (attempt_counts o a w) as Hstep. rewrite Hc in Hstep.
  destruct Hstep as [[Hc' Hn]|(c & Hc' & _ & Hn)].
  - destruct (IH _ Hc') as [[Hc'' Hn']|(c & Hc'' & Hn')].
    + left. split; [exact Hc'' | now rewrite Hn', Hn].
    + right. exists c. split; [exact Hc'' | now rewrite Hn', Hn].
  - destruct (attempts_in_turn_keep l _ c Hc') as [Hc'' Hn'].
    right. exists c. split; [exact Hc'' | now rewrite Hn', Hn].
Qed.

(** C9, as stated, fails twice over.  A first attempt whose client constructor
    raises leaves the client [None], and the next attempt binds the client to
    its own host.  And when two attempts overlap so that both test
    [self._coapClient] before either stores its client, two clients are
    constructed and the one stored first is replaced by the other. *)
Lemma coap_client_not_once :
  let w := run [Inbound POST (request "/dh/lo" mote_a);
                Inbound POST (request "/dh/lo" mote_b); Tick 2] (__init__ 5682) in
  let after_first := fire 0 (fails_only at_CoapClient) w in
  let st := spawn 0 quiet (spawn 0 quiet (w, [])) in
  _coapClient (self after_first) = None /\
  dest <$> _coapClient (self (fire 0 quiet after_first)) = Some (hostTuple_of mote_b) /\
  snd <$> snd st = [pc_start mote_a; pc_start mote_b] /\
  clientId <$> _coapClient (self (fst (interleave (take 8 racing) st))) = Some 0%nat /\
  clientsCreated (fst (interleave racing st)) = 2%nat /\
  clientId <$> _coapClient (self (fst (interleave racing st))) = Some 1%nat /\
  dest <$> _coapClient (self (fst (interleave racing st))) = Some (hostTuple_of mote_b) /\
  fst <$> sent (fst (interleave racing st)) = [0%nat; 1%nat] /\
  snd <$> snd (interleave racing st) = [pc_done; pc_done].
Proof. cbv zeta. repeat split. Qed.

(** C9, amended.  The client is [None] in a new collector and is left alone
    by everything but attempts.  An attempt that no other attempt overlaps is
    the call of [_startObserve] from start to end.  Such an attempt, when it
    finds no client and its external calls up to [registerForResponse] return,
    constructs one client, bound to its own destination, with [_observeTemp] as
    the response handler, and stores it; when the building of the request or
    the constructor raises it leaves the client [None], so that a later
    attempt constructs it; when it finds a client, it keeps that very client
    and constructs none.  So when attempts run one after another, however many
    of them, at most one client is constructed, and a client, once stored, is
    never replaced. *)
Theorem coap_client_created_once :
  (forall sp, _coapClient (self (__init__ sp)) = None) /\
  (forall w ev, wired w -> (forall i o, ev <> Expire i o) ->
     _coapClient (self (step w ev)) = _coapClient (self w)) /\
  (forall o a w,
     thread_run 7 o (pc_start a) w = (pc_done, snd (_startObserve o a w))) /\
  (forall o a w,
     _coapClient (self w) = None ->
     Forall (fun site => fails o site = false) creation_sites ->
     _coapClient (self (snd (_startObserve o a w)))
     = Some {| clientId := clientsCreated w; sourcePort := _sourcePort (self w);
               dest := (sa_host a, sa_port a); responseHook := [cb_observeTemp] |} /\
     clientsCreated (snd (_startObserve o a w)) = S (clientsCreated w)) /\
  (forall o a w,
     _coapClient (self w) = None ->
     Exists (fun site => fails o site = true) (message_sites ++ [at_CoapClient]) ->
     _coapClient (self (snd (_startObserve o a w))) = None /\
     clientsCreated (snd (_startObserve o a w)) = clientsCreated w) /\
  (forall o a w c,
     _coapClient (self w) = Some c ->
     _coapClient (self (snd (_startObserve o a w))) = Some c /\
     clientsCreated (snd (_startObserve o a w)) = clientsCreated w) /\
  (forall l w,
     _coapClient (self w) = None ->
     (clientsCreated (attempts_in_turn l w) <= S (clientsCreated w))%nat /\
     (_coapClient (self (attempts_in_turn l w)) = None <->
      clientsCreated (attempts_in_turn l w) = clientsCreated w)) /\
  (forall l w c,
     _coapClient (self w) = Some c ->
     _coapClient (self (attempts_in_turn l w)) = Some c /\
     clientsCreated (attempts_in_turn l w) = clientsCreated w).
Proof.
  split; [reflexivity|].
  split; [apply step_keeps_client_outside_attempts|].
  split; [intros o a w; rewrite startObserve_eq; apply thread_alone|].
  split; [|split; [|split; [|split]]].
  - intros o a w Hc Hok. rewrite startObserve_eq. cbn [snd].
    split; [now apply attempt_creates_client|].
    unfold creation_sites in Hok. apply Forall_app in Hok as [Hmsg Hnew].
    apply find_fails_none in Hmsg.
    apply Forall_cons in Hnew as [Hnew Hreg]. apply Forall_cons in Hreg as [Hreg _].
    unfold attempt_world, send_world. rewrite Hmsg, Hc, Hnew, Hreg.
    destruct (fails o at_send); reflexivity.
  - intros o a w Hc Hbad. rewrite startObserve_eq. cbn [snd].
    unfold attempt_world.
    destruct (List.find (fails o) message_sites) as [site|] eqn:Hfind; [now split|].
    apply find_fails_none in Hfind. rewrite Hc.
    apply Exists_app in Hbad as [Hbad|Hbad].
    + apply Exists_exists in Hbad as (site & Hin & Hsite).
      rewrite Forall_forall in Hfind. specialize (Hfind site Hin). congruence.
    + apply Exists_cons in Hbad as [Hbad|Hbad]; [|now apply Exists_nil in Hbad].
      rewrite Hbad. now split.
  - intros o a w c Hc. rewrite startObserve_eq. cbn [snd].
    pose proof (attempt_counts o a w) as Hstep. now rewrite Hc in Hstep.
  - intros l w Hc.
    destruct (attempts_in_turn_once l w Hc) as [[Hc' Hn]|(c & Hc' & Hn)];
      rewrite Hc', Hn.
    + split; [lia|]. split; reflexivity.
    + split; [lia|]. split; [discriminate | lia].
  - intros l w c Hc. now apply attempts_in_turn_keep.
Qed.

Lemma coap_client_created_once_witness :
  wired (__init__ 5682) /\
  _coapClient (self (__init__ 5682)) = None /\
  Forall (fun site => fails quiet site = false) creation_sites /\
  Exists (fun site => fails (fails_only at_CoapClient) site = true)
    (message_sites ++ [at_CoapClient]) /\
  _coapClient (self (snd (_startObserve quiet mote_a (__init__ 5682))))
  = Some {| clientId := 0; sourcePort := 5682; dest := ("1.2.3.4", 5683);
            responseHook := [cb_observeTemp] |} /\
  _coapClient (self (snd (_startObserve (fails_only at_CoapClient) mote_a
                            (__init__ 5682)))) = None /\
  _coapClient (self (step (__init__ 5682) (Tick 1))) = None /\
  (clientsCreated (attempts_in_turn [(quiet, mote_a); (quiet, mote_b)] (__init__ 5682))
   <= 1)%nat /\
  _coapClient (self (attempts_in_turn [(quiet, mote_b)]
                       (snd (_startObserve quiet mote_a (__init__ 5682)))))
  = Some {| clientId := 0; sourcePort := 5682; dest := ("1.2.3.4", 5683);
            responseHook := [cb_observeTemp] |}.
Proof.
  assert (Forall (fun site => fails quiet site = false) creation_sites) as Hok
    by (repeat constructor).
  assert (Exists (fun site => fails (fails_only at_CoapClient) site = true)
            (message_sites ++ [at_CoapClient])) as Hbad
    by (apply Exists_app; right; now constructor).
  assert (forall i o, Tick 1 <> Expire i o) as Htick by discriminate.
  split; [apply init_wired|]. split; [reflexivity|].
  split; [exact Hok|]. split; [exact Hbad|].
  destruct coap_client_created_once
    as (_ & Hout & _ & Hfirst & Hfail & Hkeep & Honce & Hturn).
  split; [exact (proj1 (Hfirst quiet mote_a (__init__ 5682) eq_refl Hok))|].
  split; [exact (proj1 (Hfail _ mote_a (__init__ 5682) eq_refl Hbad))|].
  split; [exact (Hout (__init__ 5682) (Tick 1) (init_wired 5682) Htick)|].
  split; [exact (proj1 (Honce [(quiet, mote_a); (quiet, mote_b)] (__init__ 5682)
                          eq_refl))|].
  exact (proj1 (Hturn [(quiet, mote_b)] _ _
                  (proj1 (Hfirst quiet mote_a (__init__ 5682) eq_refl Hok)))).
Defined.

(** The hazard that comes with the single client: the request for a second
    host leaves through the client bound to the first. *)
Example second_host_through_first_client :
  let w := run [Inbound POST (request "/dh/lo" mote_a);
                Inbound POST (request "/dh/lo" mote_b);
                Tick 2; Expire 0 quiet; Expire 0 quiet] (__init__ 5682) in
  dest <$> _coapClient (self w) = Some ("1.2.3.4", 5683) /\
  (msgAddress ∘ snd) <$> sent w = [("1.2.3.4", 5683); ("fe80::2", 5683)] /\
  fst <$> sent w = [0%nat; 0%nat].
Proof. repeat split. Qed.

(** * Further properties *)

(** ** Names and addresses *)

Lemma last_segment_after_colon front a :
  item_last (split colon (front +:+ String colon a)) = item_last (split colon a).
Proof.
  apply (last_segment_unique (front +:+ String colon a)); [apply split_last_segment|].
  destruct (split_last_segment a) as [Hclean [Ha|[f Ha]]]; split; try exact Hclean.
  - right. exists front. now rewrite <- Ha.
  - right. exists (front +:+ String colon f). rewrite Ha at 1. apply append_assoc_cons.
Qed.

(** X1. Only what follows the last colon of the address enters the name: an
    address and the same address behind any prefix and a colon get the same
    name, so hosts whose addresses end in the same segment share a name. *)
Theorem name_ignores_prefix (front a n1 n2 : string) :
  getInvariantName {| address := front +:+ String colon a; name := n1 |}
  = getInvariantName {| address := a; name := n2 |}.
Proof.
  unfold getInvariantName. cbn [address]. now rewrite last_segment_after_colon.
Qed.

(** X2. An address without a colon is its own last segment: the name is the
    tag followed by the whole address. *)
Theorem name_of_plain_address (a n : string) :
  has_char colon a = false ->
  getInvariantName {| address := a; name := n |} = "mote-" +:+ a.
Proof.
  intros Hclean. unfold getInvariantName. cbn [address]. f_equal.
  apply (last_segment_unique a); [apply split_last_segment|].
  split; [exact Hclean | now left].
Qed.

Lemma name_of_plain_address_witness :
  has_char colon "1.2.3.4" = false /\
  getInvariantName {| address := "1.2.3.4"; name := "" |} = "mote-" +:+ "1.2.3.4".
Proof.
  split; [reflexivity|]. apply (name_of_plain_address "1.2.3.4" "" eq_refl).
Defined.

(** ** What every reachable world satisfies *)

Lemma notify_now message w : now (notify message w) = now w.
Proof.
  unfold notify. destruct (_coapClient (self w)) as [c|]; [|reflexivity].
  generalize (responseHook c). intros hook. revert w.
  induction hook as [|cb hook IH]; intros w; [reflexivity|].
  cbn [fold_left]. destruct cb; try apply IH. now rewrite IH.
Qed.

Lemma known_same a w w' : _hosts (self w') = _hosts (self w) -> known a w -> known a w'.
Proof. intros Hh (h & Hin & Ha). exists h. now rewrite Hh. Qed.

Lemma known_grown a w w' l :
  _hosts (self w') = _hosts (self w) ++ l -> known a w -> known a w'.
Proof.
  intros Hh (h & Hin & Ha). exists h. rewrite Hh.
  split; [apply elem_of_app; now left | exact Ha].
Qed.

(** Nothing the invariant speaks of has changed. *)
Lemma sound_same sp w w' :
  self w' = self w -> now w' = now w -> timers w' = timers w -> sent w' = sent w ->
  clientsCreated w' = clientsCreated w -> sound sp w -> sound sp w'.
Proof.
  intros Hself Hnow Htimers Hsent Hn [Hw Hp Hc Hnames Hclock Ht Hs Hcl].
  assert (forall a, known a w -> known a w') as Hk
    by (intros a; apply known_same; now rewrite Hself).
  constructor.
  - unfold wired. now rewrite Hself.
  - now rewrite Hself.
  - unfold client_inv. now rewrite Hself, Hn.
  - now rewrite Hself.
  - now rewrite Hnow.
  - rewrite Htimers, Hnow. intros t Hin.
    destruct (Ht t Hin) as (? & ? & ? & ?). auto.
  - rewrite Hsent, Hnow. intros cid msg Hin.
    destruct (Hs cid msg Hin) as (? & ? & ? & ?). auto.
  - rewrite Hself, Hnow. intros c Hc'.
    destruct (Hcl c Hc') as (? & ? & ? & ?). auto.
Qed.

(** One more timer for a registered host, started now. *)
Lemma sound_armed sp w w' a :
  self w' = self w -> now w' = now w -> sent w' = sent w ->
  clientsCreated w' = clientsCreated w ->
  timers w' = timers w ++ [{| interval := 2; function := cb_startObserve; args := a;
                              started := now w |}] ->
  known (sa_host a) w -> sound sp w -> sound sp w'.
Proof.
  intros Hself Hnow Hsent Hn Htimers Hka [Hw Hp Hc Hnames Hclock Ht Hs Hcl].
  assert (forall b, known b w -> known b w') as Hk
    by (intros b; apply known_same; now rewrite Hself).
  constructor.
  - unfold wired. now rewrite Hself.
  - now rewrite Hself.
  - unfold client_inv. now rewrite Hself, Hn.
  - now rewrite Hself.
  - now rewrite Hnow.
  - rewrite Htimers, Hnow. intros t Hin. apply elem_of_app in Hin as [Hin|Hin].
    + destruct (Ht t Hin) as (? & ? & ? & ?). auto.
    + apply list_elem_of_singleton in Hin. subst t. cbn. repeat split; auto; lia.
  - rewrite Hsent, Hnow. intros cid msg Hin.
    destruct (Hs cid msg Hin) as (? & ? & ? & ?). auto.
  - rewrite Hself, Hnow. intros c Hc'.
    destruct (Hcl c Hc') as (? & ? & ? & ?). auto.
Qed.

(** The registry has grown by hosts that carry their derived name. *)
Lemma sound_grown sp w w' l :
  _coapServer (self w') = _coapServer (self w) ->
  _sourcePort (self w') = _sourcePort (self w) ->
  _coapClient (self w') = _coapClient (self w) ->
  _hosts (self w') = _hosts (self w) ++ l ->
  (forall h, h ∈ l -> name h = getInvariantName h) ->
  now w' = now w -> timers w' = timers w -> sent w' = sent w ->
  clientsCreated w' = clientsCreated w -> sound sp w -> sound sp w'.
Proof.
  intros Hsrv Hport Hclient Hhosts Hl Hnow Htimers Hsent Hn
    [Hw Hp Hc Hnames Hclock Ht Hs Hcl].
  assert (forall b, known b w -> known b w') as Hk
    by (intros b; now apply known_grown with l).
  constructor.
  - unfold wired. now rewrite Hsrv.
  - now rewrite Hsrv, Hport.
  - unfold client_inv. now rewrite Hclient, Hn.
  - rewrite Hhosts. intros h Hin. apply elem_of_app in Hin as [Hin|Hin]; auto.
  - now rewrite Hnow.
  - rewrite Htimers, Hnow. intros t Hin.
    destruct (Ht t Hin) as (? & ? & ? & ?). auto.
  - rewrite Hsent, Hnow. intros cid msg Hin.
    destruct (Hs cid msg Hin) as (? & ? & ? & ?). auto.
  - rewrite Hclient, Hnow. intros c Hc'.
    destruct (Hcl c Hc') as (? & ? & ? & ?). auto.
Qed.

Lemma sound_postResource sp resource w :
  sound sp w -> sound sp (fst (_postResource resource w)).
Proof.
  intros Hsound.
  destruct (String.eqb_spec (path resource) "/dh/lo") as [Hpath|Hpath].
  - destruct (find_host (sa_host (sourceAddress resource)) (_hosts (self w)))
      as [h|] eqn:Hfind.
    + rewrite (postResource_found _ _ h Hpath Hfind). cbn [fst].
      eapply (sound_armed sp w _ (sourceAddress resource)); try reflexivity;
        [|exact Hsound].
      apply find_host_known. now exists h.
    + destruct (postResource_new _ _ Hpath Hfind) as (h & Hh & ->). cbn [fst].
      injection Hh as <-.
      match goal with
      | |- sound sp (Timer_start _ _ _ ?w0) => set (w1 := w0)
      end.
      assert (sound sp w1) as Hs1.
      { eapply (sound_grown sp w w1 [_]); try reflexivity; [|exact Hsound].
        intros h' Hin. apply list_elem_of_singleton in Hin. now subst h'. }
      eapply (sound_armed sp w1 _ (sourceAddress resource)); try reflexivity;
        [|exact Hs1].
      eexists. split.
      * cbn. apply elem_of_app. right. apply list_elem_of_singleton. reflexivity.
      * reflexivity.
  - rewrite (postResource_unknown _ _ Hpath). cbn [fst].
    now apply (sound_same sp w).
Qed.

Lemma attempt_now o a w : now (attempt_world o a w) = now w.
Proof. attempt_frame. Qed.

Lemma attempt_sourcePort o a w :
  _sourcePort (self (attempt_world o a w)) = _sourcePort (self w).
Proof. attempt_frame. Qed.

Lemma attempt_sent_id o a w :
  sent (attempt_world o a w) = sent w \/
  sent (attempt_world o a w)
  = sent w ++ [(client_in_use w, observe_request o (hostTuple_of a))].
Proof.
  unfold attempt_world, send_world, client_in_use, hostTuple_of.
  destruct (List.find (fails o) message_sites); [now left|].
  destruct (_coapClient (self w)) as [c|].
  - destruct (fails o at_send); [now left | now right].
  - destruct (fails o at_CoapClient); [now left|].
    destruct (fails o at_registerForResponse); [now left|].
    destruct (fails o at_send); [now left | now right].
Qed.

Lemma attempt_client_cases o a w :
  _coapClient (self (attempt_world o a w)) = _coapClient (self w) \/
  (_coapClient (self w) = None /\
   exists hook, (hook = [] \/ hook = [cb_observeTemp]) /\
     _coapClient (self (attempt_world o a w))
     = Some {| clientId := clientsCreated w; sourcePort := _sourcePort (self w);
               dest := hostTuple_of a; responseHook := hook |}).
Proof.
  unfold attempt_world, send_world, hostTuple_of.
  destruct (List.find (fails o) message_sites); [now left|].
  destruct (_coapClient (self w)) as [c|] eqn:Hc.
  - left. destruct (fails o at_send); exact Hc.
  - destruct (fails o at_CoapClient); [left; exact Hc|].
    right. split; [reflexivity|].
    destruct (fails o at_registerForResponse).
    + exists []. split; [now left | reflexivity].
    + exists [cb_observeTemp]. split; [now right|].
      destruct (fails o at_send); reflexivity.
Qed.

Lemma sound_attempt sp o a w :
  known (sa_host a) w -> 2 <= now w -> sound sp w -> sound sp (attempt_world o a w).
Proof.
  intros Hka Hlate [Hw Hp Hc Hnames Hclock Ht Hs Hcl].
  assert (forall b, known b w -> known b (attempt_world o a w)) as Hk
    by (intros b; apply known_same, attempt_hosts).
  constructor.
  - unfold wired. now rewrite attempt_server.
  - now rewrite attempt_server, attempt_sourcePort.
  - now apply attempt_client_inv.
  - now rewrite attempt_hosts.
  - now rewrite attempt_now.
  - rewrite attempt_timers, attempt_now. intros t Hin.
    destruct (Ht t Hin) as (? & ? & ? & ?). auto.
  - rewrite attempt_now. intros cid msg Hin.
    destruct (attempt_sent_id o a w) as [Hsent|Hsent]; rewrite Hsent in Hin.
    + destruct (Hs cid msg Hin) as (? & ? & ? & ?). auto.
    + apply elem_of_app in Hin as [Hin|Hin].
      * destruct (Hs cid msg Hin) as (? & ? & ? & ?). auto.
      * apply list_elem_of_singleton in Hin. injection Hin as -> ->.
        split; [|split; [apply observe_request_registration | auto]].
        unfold client_in_use, client_inv in *.
        destruct (_coapClient (self w)) as [c|]; [apply Hc | exact Hc].
  - rewrite attempt_now. intros c Hc'.
    destruct (attempt_client_cases o a w) as [Hsame|(Hnone & hook & Hhook & Hnew)].
    + rewrite Hsame in Hc'. destruct (Hcl c Hc') as (? & ? & ? & ?). auto.
    + rewrite Hnew in Hc'. injection Hc' as <-. cbn.
      destruct Hp as [Hp _]. auto.
Qed.

Lemma sound_fewer_timers sp w l :
  (forall t, t ∈ l -> t ∈ timers w) -> sound sp w -> sound sp (set_timers l w).
Proof.
  intros Hsub [Hw Hp Hc Hnames Hclock Ht Hs Hcl].
  assert (forall b, known b w -> known b (set_timers l w)) as Hk
    by (intros b; now apply known_same).
  constructor.
  - exact Hw.
  - exact Hp.
  - exact Hc.
  - exact Hnames.
  - exact Hclock.
  - cbn. intros t Hin. destruct (Ht t (Hsub t Hin)) as (? & ? & ? & ?). auto.
  - cbn. intros cid msg Hin. destruct (Hs cid msg Hin) as (? & ? & ? & ?). auto.
  - cbn. intros c Hc'. destruct (Hcl c Hc') as (? & ? & ? & ?). auto.
Qed.

Lemma sound_tick sp w (dt : N) : sound sp w -> sound sp (set_now (now w + Z.of_N dt) w).
Proof.
  intros [Hw Hp Hc Hnames Hclock Ht Hs Hcl].
  assert (forall b, known b w -> known b (set_now (now w + Z.of_N dt) w)) as Hk
    by (intros b; now apply known_same).
  constructor.
  - exact Hw.
  - exact Hp.
  - exact Hc.
  - exact Hnames.
  - cbn. lia.
  - cbn. intros t Hin. destruct (Ht t Hin) as (? & ? & ? & ?).
    repeat split; auto; lia.
  - cbn. intros cid msg Hin. destruct (Hs cid msg Hin) as (? & ? & ? & ?).
    split; [auto|]. split; [auto|]. split; [auto | lia].
  - cbn. intros c Hc'. destruct (Hcl c Hc') as (? & ? & ? & ?).
    split; [auto|]. split; [auto|]. split; [auto | lia].
Qed.

Lemma sound_fire sp i o w : sound sp w -> sound sp (fire i o w).
Proof.
  intros Hsound.
  destruct (fire_cases i o w)
    as [->|[(t & Ht & _ & ->)|(t & Ht & Hexp & _ & ->)]]; [exact Hsound| |].
  - apply sound_fewer_timers; [|exact Hsound].
    intros t'. apply list_elem_of_delete_inv.
  - assert (t ∈ timers w) as Hin by (apply list_elem_of_lookup; now exists i).
    destruct (sound_timers sp w Hsound t Hin) as (Hint & _ & (h & Hh & Ha) & Hst).
    apply sound_attempt.
    + now exists h.
    + unfold expired in Hexp. apply Z.leb_le in Hexp. cbn. lia.
    + apply sound_fewer_timers; [|exact Hsound].
      intros t'. apply list_elem_of_delete_inv.
Qed.

Lemma sound_step sp w ev : sound sp w -> sound sp (step w ev).
Proof.
  intros Hsound. pose proof (sound_wired sp w Hsound) as Hw.
  destruct ev as [method resource|dt|i o|message]; cbn [step].
  - destruct method.
    + rewrite serve_GET by exact Hw. now apply (sound_same sp w).
    + rewrite serve_POST by exact Hw.
      apply (sound_same sp (fst (_postResource resource w))); try reflexivity.
      now apply sound_postResource.
    + now apply (sound_same sp w).
    + now apply (sound_same sp w).
  - now apply sound_tick.
  - now apply sound_fire.
  - destruct (notify_frame message w) as (Hs & Hn & Ht & _ & Hsent).
    apply (sound_same sp w); auto using notify_now.
Qed.

Lemma sound_run sp evs w : sound sp w -> sound sp (run evs w).
Proof.
  revert w. induction evs as [|ev evs IH]; intros w Hsound; [exact Hsound|].
  cbn [run fold_left]. apply IH. now apply sound_step.
Qed.

Lemma sound_init sp : sound sp (__init__ sp).
Proof.
  constructor; cbn.
  - apply init_wired.
  - split; reflexivity.
  - reflexivity.
  - intros h Hin. now apply elem_of_nil in Hin.
  - lia.
  - intros t Hin. now apply elem_of_nil in Hin.
  - intros cid msg Hin. now apply elem_of_nil in Hin.
  - discriminate.
Qed.

Lemma sound_reached sp evs : sound sp (run evs (__init__ sp)).
Proof. apply sound_run, sound_init. Qed.

(** ** The registry along a run *)

(** X3. Every host in the registry of a running collector carries the name
    derived from its address: the tag followed by the last colon-delimited
    segment of the address. *)
Theorem registered_hosts_are_named (sp : Z) (evs : list Event) (h : Host) :
  h ∈ _hosts (self (run evs (__init__ sp))) ->
  name h = getInvariantName h /\
  exists tail, last_segment (address h) tail /\ name h = "mote-" +:+ tail.
Proof.
  intros Hin. pose proof (sound_names sp _ (sound_reached sp evs) h Hin) as Hname.
  split; [exact Hname|]. exists (item_last (split colon (address h))).
  split; [apply split_last_segment | exact Hname].
Qed.

Lemma registered_hosts_are_named_witness :
  let h := {| address := "fe80::2"; name := "mote-2" |} in
  h ∈ _hosts (self (run [Inbound POST (request "/dh/lo" mote_b)] (__init__ 5682))) /\
  name h = getInvariantName h.
Proof.
  intros h.
  assert (h ∈ _hosts (self (run [Inbound POST (request "/dh/lo" mote_b)]
                              (__init__ 5682)))) as Hin
    by (apply list_elem_of_singleton; reflexivity).
  split; [exact Hin|].
  apply (registered_hosts_are_named 5682 [Inbound POST (request "/dh/lo" mote_b)] h Hin).
Defined.

Lemma postResource_known a resource w :
  known a (fst (_postResource resource w)) <->
  known a w \/ announces a resource.
Proof.
  unfold announces.
  destruct (String.eqb_spec (path resource) "/dh/lo") as [Hpath|Hpath].
  - destruct (find_host (sa_host (sourceAddress resource)) (_hosts (self w)))
      as [h|] eqn:Hfind.
    + rewrite (postResource_found _ _ h Hpath Hfind). cbn [fst]. split.
      * intros Hk. left. revert Hk. now apply known_same.
      * intros [Hk|[_ Ha]]; [revert Hk; now apply known_same|].
        apply find_host_Some in Hfind as [Hin Hh]. exists h. split; [exact Hin|].
        now rewrite Hh.
    + destruct (postResource_new _ _ Hpath Hfind) as (h & Hh & ->). cbn [fst].
      injection Hh as <-. unfold known. cbn. split.
      * intros (h & Hin & Ha). apply elem_of_app in Hin as [Hin|Hin].
        -- left. now exists h.
        -- right. apply list_elem_of_singleton in Hin. subst h. now split.
      * intros [(h & Hin & Ha)|[_ Ha]].
        -- exists h. split; [apply elem_of_app; now left | exact Ha].
        -- eexists. split; [apply elem_of_app; right; now apply list_elem_of_singleton|].
           exact Ha.
  - rewrite (postResource_unknown _ _ Hpath). cbn [fst]. split.
    + intros Hk. left. revert Hk. now apply known_same.
    + intros [Hk|[Hp _]]; [revert Hk; now apply known_same | contradiction].
Qed.

Lemma announcement_announces a ev :
  a ∈ sa_host <$> announced [ev] <->
  exists resource, ev = Inbound POST resource /\ announces a resource.
Proof.
  unfold announced, announces. cbn.
  destruct ev as [[] resource|dt|i o|message]; cbn;
    try (split; [intros Hin; now apply elem_of_nil in Hin
                | intros (r & Hr & _); discriminate]).
  destruct (String.eqb_spec (path resource) "/dh/lo") as [Hpath|Hpath]; cbn.
  - split.
    + intros Hin. apply list_elem_of_singleton in Hin. now exists resource.
    + intros (r & Hr & _ & Ha). injection Hr as <-.
      now apply list_elem_of_singleton.
  - split; [intros Hin; now apply elem_of_nil in Hin|].
    intros (r & Hr & Hp & _). injection Hr as <-. contradiction.
Qed.

Lemma step_hosts_kept w ev :
  wired w -> (forall resource, ev <> Inbound POST resource) ->
  _hosts (self (step w ev)) = _hosts (self w).
Proof.
  intros Hw Hev. destruct ev as [method resource|dt|i o|message]; cbn [step].
  - destruct method; try reflexivity.
    + now rewrite serve_GET.
    + now destruct (Hev resource).
  - reflexivity.
  - destruct (fire_cases i o w) as [->|[(t & _ & _ & ->)|(t & _ & _ & _ & ->)]];
      [reflexivity | reflexivity | now rewrite attempt_hosts].
  - now destruct (notify_frame message w) as (-> & _).
Qed.

Lemma known_iff_same a w w' :
  _hosts (self w') = _hosts (self w) -> known a w' <-> known a w.
Proof. intros Hh. unfold known. now rewrite Hh. Qed.

Lemma step_known a w ev :
  wired w ->
  known a (step w ev) <-> known a w \/ a ∈ sa_host <$> announced [ev].
Proof.
  intros Hw. rewrite announcement_announces.
  assert ((exists r, ev = Inbound POST r) \/ (forall r, ev <> Inbound POST r))
    as [[r ->]|Hev].
  { destruct ev as [[] r|dt|i o|message]; try (right; discriminate). left; eauto. }
  - cbn [step]. rewrite serve_POST by exact Hw.
    rewrite (known_iff_same a (fst (_postResource r w))) by reflexivity.
    rewrite postResource_known. split.
    + intros [Hk|Ha]; [now left | right; now exists r].
    + intros [Hk|(r' & Hr & Ha)]; [now left|]. injection Hr as <-. now right.
  - rewrite (known_iff_same a w) by now apply step_hosts_kept.
    split; [now left|]. intros [Hk|(r & Hr & _)]; [exact Hk | now destruct (Hev r)].
Qed.

Lemma announced_cons ev evs : announced (ev :: evs) = announced [ev] ++ announced evs.
Proof. unfold announced. cbn. now destruct (announcement ev). Qed.

Lemma run_known a evs w :
  wired w ->
  known a (run evs w) <-> known a w \/ a ∈ sa_host <$> announced evs.
Proof.
  revert w. induction evs as [|ev evs IH]; intros w Hw.
  - cbn. split; [now left|]. intros [Hk|Hin]; [exact Hk | now apply elem_of_nil in Hin].
  - cbn [run fold_left].
    assert (wired (step w ev)) as Hw' by (eapply later_wired; eauto using later_step).
    change (fold_left step evs (step w ev)) with (run evs (step w ev)).
    rewrite (IH _ Hw'), (step_known a w ev Hw), (announced_cons ev evs).
    rewrite fmap_app, elem_of_app. tauto.
Qed.

Lemma init_unknown sp a : ~ known a (__init__ sp).
Proof. intros (h & Hin & _). cbn in Hin. now apply elem_of_nil in Hin. Qed.

Lemma known_iff_announced sp evs a :
  known a (run evs (__init__ sp)) <-> a ∈ sa_host <$> announced evs.
Proof.
  rewrite (run_known a evs _ (init_wired sp)).
  split; [|now right]. intros [Hk|Hin]; [now apply init_unknown in Hk | exact Hin].
Qed.

(** X4. An address is in the registry exactly when a POST to the announcement
    path has arrived from it: GET requests, POSTs to other paths, timers and
    notifications never register a host, and every announcement does. *)
Theorem registered_iff_announced (sp : Z) (evs : list Event) (a : string) :
  (exists h, h ∈ _hosts (self (run evs (__init__ sp))) /\ address h = a) <->
  (exists resource, Inbound POST resource ∈ evs /\
     path resource = "/dh/lo" /\ sa_host (sourceAddress resource) = a).
Proof.
  change (exists h, h ∈ _hosts (self (run evs (__init__ sp))) /\ address h = a)
    with (known a (run evs (__init__ sp))).
  rewrite known_iff_announced. unfold announced.
  rewrite list_elem_of_fmap. split.
  - intros (sa & -> & Hin). apply list_elem_of_omap in Hin as (ev & Hev & Hsa).
    destruct ev as [[] resource|dt|i o|message]; try discriminate. cbn in Hsa.
    destruct (String.eqb_spec (path resource) "/dh/lo") as [Hpath|]; [|discriminate].
    injection Hsa as <-. now exists resource.
  - intros (resource & Hin & Hpath & Ha). exists (sourceAddress resource).
    split; [now rewrite Ha|]. apply list_elem_of_omap.
    exists (Inbound POST resource). split; [exact Hin|]. cbn.
    apply String.eqb_eq in Hpath. now rewrite Hpath.
Qed.

(** X5. The registry holds as many hosts as there are distinct addresses
    among the announcements that have arrived, and their addresses are those
    addresses. *)
Theorem registry_counts_distinct_announcers (sp : Z) (evs : list Event) :
  address <$> _hosts (self (run evs (__init__ sp)))
    ≡ₚ remove_dups (sa_host <$> announced evs) /\
  length (_hosts (self (run evs (__init__ sp))))
  = length (remove_dups (sa_host <$> announced evs)).
Proof.
  assert (address <$> _hosts (self (run evs (__init__ sp)))
            ≡ₚ remove_dups (sa_host <$> announced evs)) as Hperm.
  { apply NoDup_Permutation.
    - apply (later_run evs _ (init_wired sp)), init_registry_ok.
    - apply NoDup_remove_dups.
    - intros a. rewrite elem_of_remove_dups, <- (known_iff_announced sp evs a).
      rewrite list_elem_of_fmap. unfold known. split.
      + intros (h & -> & Hin). exists h. now split.
      + intros (h & Hin & <-). exists h. now split. }
  split; [exact Hperm|].
  apply Permutation_length in Hperm. now rewrite length_fmap in Hperm.
Qed.

(** X6. The registry is append-only: whatever happens later, the hosts
    registered so far stay, unchanged and in the same order, at the front. *)
Theorem registry_is_append_only (sp : Z) (evs evs' : list Event) :
  exists l,
    _hosts (self (run (evs ++ evs') (__init__ sp)))
    = _hosts (self (run evs (__init__ sp))) ++ l.
Proof.
  rewrite run_app.
  assert (wired (run evs (__init__ sp))) as Hw
    by (eapply later_wired; [apply later_run|]; apply init_wired).
  now destruct (later_run evs' _ Hw) as (_ & Hl & _).
Qed.

(** ** Timers along a run *)

(** X7. Every pending timer of a running collector is an Observe registration
    for a registered host: its interval is 2, its function [_startObserve],
    the host of its argument is in the registry, and it was started no later
    than now. *)
Theorem pending_timers_target_registered_hosts
    (sp : Z) (evs : list Event) (t : Timer) :
  let w := run evs (__init__ sp) in
  t ∈ timers w ->
  interval t = 2 /\ function t = cb_startObserve /\
  (exists h, h ∈ _hosts (self w) /\ address h = sa_host (args t)) /\
  0 <= started t <= now w.
Proof.
  intros w Hin. exact (sound_timers sp w (sound_reached sp evs) t Hin).
Qed.

Lemma pending_timers_target_registered_hosts_witness :
  let w := run [Tick 3; Inbound POST (request "/dh/lo" mote_a)] (__init__ 5682) in
  let t := {| interval := 2; function := cb_startObserve; args := mote_a;
              started := 3 |} in
  t ∈ timers w /\ interval t = 2 /\ function t = cb_startObserve /\
  (exists h, h ∈ _hosts (self w) /\ address h = sa_host (args t)) /\
  0 <= started t <= now w.
Proof.
  intros w t.
  assert (t ∈ timers w) as Hin by (apply list_elem_of_singleton; reflexivity).
  split; [exact Hin|].
  apply (pending_timers_target_registered_hosts 5682
           [Tick 3; Inbound POST (request "/dh/lo" mote_a)] t Hin).
Defined.

Lemma postResource_timers resource w :
  args <$> timers (fst (_postResource resource w))
  = (args <$> timers w) ++ announced [Inbound POST resource].
Proof.
  unfold announced. cbn.
  destruct (String.eqb_spec (path resource) "/dh/lo") as [Hpath|Hpath].
  - destruct (find_host (sa_host (sourceAddress resource)) (_hosts (self w)))
      as [h|] eqn:Hfind.
    + rewrite (postResource_found _ _ h Hpath Hfind). cbn. now rewrite fmap_app.
    + destruct (postResource_new _ _ Hpath Hfind) as (h & _ & ->). cbn.
      now rewrite fmap_app.
  - rewrite (postResource_unknown _ _ Hpath). cbn. now rewrite app_nil_r.
Qed.

Lemma step_timers w ev :
  wired w -> is_expiry ev = false ->
  args <$> timers (step w ev) = (args <$> timers w) ++ announced [ev].
Proof.
  intros Hw Hev. destruct ev as [method resource|dt|i o|message]; cbn [step].
  - destruct method.
    + rewrite serve_GET by exact Hw. cbn. now rewrite app_nil_r.
    + rewrite serve_POST by exact Hw. apply postResource_timers.
    + cbn. now rewrite app_nil_r.
    + cbn. now rewrite app_nil_r.
  - cbn. now rewrite app_nil_r.
  - discriminate.
  - destruct (notify_frame message w) as (_ & _ & -> & _). cbn. now rewrite app_nil_r.
Qed.

(** X8. As long as no timer has expired, the pending timers are exactly the
    announcements that have arrived, in their order of arrival, each with the
    full source address of its announcement: every announcement, from a new or
    a known host, arms one timer, and nothing else does. *)
Theorem one_timer_per_announcement (sp : Z) (evs : list Event) :
  forallb (fun ev => negb (is_expiry ev)) evs = true ->
  args <$> timers (run evs (__init__ sp)) = announced evs.
Proof.
  intros Hquiet.
  assert (forall w, wired w ->
            args <$> timers (run evs w) = (args <$> timers w) ++ announced evs)
    as Hgen.
  { induction evs as [|ev evs IH]; intros w Hw.
    - cbn. now rewrite app_nil_r.
    - cbn [forallb] in Hquiet. apply andb_true_iff in Hquiet as [Hev Hrest].
      apply negb_true_iff in Hev.
      cbn [run fold_left]. change (fold_left step evs (step w ev)) with (run evs (step w ev)).
      assert (wired (step w ev)) as Hw' by (eapply later_wired; eauto using later_step).
      rewrite (IH Hrest _ Hw'), (step_timers w ev Hw Hev), (announced_cons ev evs).
      now rewrite app_assoc. }
  now rewrite (Hgen _ (init_wired sp)).
Qed.

Lemma one_timer_per_announcement_witness :
  let evs := [Inbound POST (request "/dh/lo" mote_a); Inbound GET (request "/dh/lo" mote_b);
              Inbound POST (request "/dh/lo" mote_a); Tick 5] in
  forallb (fun ev => negb (is_expiry ev)) evs = true /\
  args <$> timers (run evs (__init__ 5682)) = [mote_a; mote_a].
Proof.
  intros evs. split; [reflexivity|].
  apply (one_timer_per_announcement 5682 evs eq_refl).
Defined.

(** ** What is sent *)

(** X9. Whatever a running collector has sent is an Observe registration
    request addressed to a host of the registry, and nothing was sent before
    the clock reached 2. *)
Theorem sent_only_registrations_to_registered_hosts
    (sp : Z) (evs : list Event) (cid : nat) (msg : CoapMessage) :
  let w := run evs (__init__ sp) in
  (cid, msg) ∈ sent w ->
  observe_registration msg /\
  (exists h, h ∈ _hosts (self w) /\ address h = fst (msgAddress msg)) /\
  2 <= now w.
Proof.
  intros w Hin.
  destruct (sound_sent sp w (sound_reached sp evs) cid msg Hin) as (_ & Hrest).
  exact Hrest.
Qed.

Lemma sent_only_registrations_to_registered_hosts_witness :
  let w := run [Inbound POST (request "/dh/lo" mote_a); Tick 2; Expire 0 quiet]
             (__init__ 5682) in
  (0%nat, observe_request quiet (hostTuple_of mote_a)) ∈ sent w /\
  observe_registration (observe_request quiet (hostTuple_of mote_a)).
Proof.
  intros w.
  assert ((0%nat, observe_request quiet (hostTuple_of mote_a)) ∈ sent w) as Hin
    by (apply list_elem_of_singleton; reflexivity).
  split; [exact Hin|].
  apply (sent_only_registrations_to_registered_hosts 5682
           [Inbound POST (request "/dh/lo" mote_a); Tick 2; Expire 0 quiet] _ _ Hin).
Defined.

(** X10. In the first 2 time units of a collector nothing is sent and no
    client is created, whatever arrives and whichever timers are tried. *)
Theorem nothing_sent_before_delay (sp : Z) (evs : list Event) :
  let w := run evs (__init__ sp) in
  now w < 2 ->
  sent w = [] /\ _coapClient (self w) = None /\ clientsCreated w = 0%nat.
Proof.
  intros w Hearly. pose proof (sound_reached sp evs) as Hsound. fold w in Hsound.
  assert (_coapClient (self w) = None) as Hnone.
  { destruct (_coapClient (self w)) as [c|] eqn:Hc; [|reflexivity].
    destruct (sound_client sp w Hsound c Hc) as (_ & _ & _ & Hlate). lia. }
  split; [|split; [exact Hnone|]].
  - destruct (sent w) as [|[cid msg] rest] eqn:Hsent; [reflexivity|].
    assert ((cid, msg) ∈ sent w) as Hin by (rewrite Hsent; apply elem_of_cons; now left).
    destruct (sound_sent sp w Hsound cid msg Hin) as (_ & _ & _ & Hlate). lia.
  - pose proof (sound_created sp w Hsound) as Hinv. unfold client_inv in Hinv.
    now rewrite Hnone in Hinv.
Qed.

Lemma nothing_sent_before_delay_witness :
  let w := run [Inbound POST (request "/dh/lo" mote_a); Tick 1; Expire 0 quiet]
             (__init__ 5682) in
  now w < 2 /\ sent w = [].
Proof.
  intros w. split; [reflexivity|].
  apply (nothing_sent_before_delay 5682
           [Inbound POST (request "/dh/lo" mote_a); Tick 1; Expire 0 quiet]).
  reflexivity.
Defined.

(** ** The client across attempts *)

(** X11. An attempt that finds a client sends its request through that client
    and leaves it as it is, whatever destination the client was created for:
    requests for every later host leave through the client of the first. *)
Theorem later_attempts_reuse_client (o : Oracle) (a : SockAddr) (w : World)
    (c : CoapClient) :
  _coapClient (self w) = Some c ->
  Forall (fun site => fails o site = false) (message_sites ++ [at_send]) ->
  let w' := snd (_startObserve o a w) in
  sent w' = sent w ++ [(clientId c, observe_request o (hostTuple_of a))] /\
  _coapClient (self w') = Some c /\
  clientsCreated w' = clientsCreated w.
Proof.
  intros Hc Hok w'. unfold w'. rewrite startObserve_eq. cbn [snd].
  apply Forall_app in Hok as [Hmsg Hsend]. apply find_fails_none in Hmsg.
  apply Forall_cons in Hsend as [Hsend _].
  unfold attempt_world, send_world, hostTuple_of. rewrite Hmsg, Hc, Hsend.
  cbn. now rewrite Hc.
Qed.

Lemma later_attempts_reuse_client_witness :
  let w := run [Inbound POST (request "/dh/lo" mote_a); Tick 2; Expire 0 quiet]
             (__init__ 5682) in
  let c := {| clientId := 0; sourcePort := 5682; dest := hostTuple_of mote_a;
              responseHook := [cb_observeTemp] |} in
  _coapClient (self w) = Some c /\
  Forall (fun site => fails quiet site = false) (message_sites ++ [at_send]) /\
  _coapClient (self (snd (_startObserve quiet mote_b w))) = Some c.
Proof.
  intros w c.
  assert (Forall (fun site => fails quiet site = false) (message_sites ++ [at_send]))
    as Hok by (repeat constructor).
  split; [reflexivity|]. split; [exact Hok|].
  apply (later_attempts_reuse_client quiet mote_b w c eq_refl Hok).
Defined.

Lemma attempts_in_turn_hook l w :
  _coapClient (self w) = None ->
  _coapClient (self (attempts_in_turn l w)) = None \/
  exists c, _coapClient (self (attempts_in_turn l w)) = Some c /\
            (responseHook c = [] \/ responseHook c = [cb_observeTemp]).
Proof.
  revert w. induction l as [|[o a] l IH]; intros w Hc; [now left|].
  rewrite attempts_in_turn_cons.
  destruct (attempt_client_cases o a w) as [Hsame|(_ & hook & Hhook & Hnew)].
  - apply IH. now rewrite Hsame.
  - right. eexists. split; [apply (attempts_in_turn_keep l _ _ Hnew)|]. exact Hhook.
Qed.

(** X12. If [registerForResponse] raises in the attempt that creates the
    client, the client is stored all the same, without a response handler, and
    nothing is sent.  Attempts that run afterwards, one after another, find
    this client and keep it as it is, and while it is the stored client no
    notification is read. *)
Theorem failed_registration_is_never_repaired (o : Oracle) (a : SockAddr) (w : World) :
  _coapClient (self w) = None ->
  Forall (fun site => fails o site = false) (message_sites ++ [at_CoapClient]) ->
  fails o at_registerForResponse = true ->
  let w' := snd (_startObserve o a w) in
  exists c,
    _coapClient (self w') = Some c /\ responseHook c = [] /\
    dest c = hostTuple_of a /\ sent w' = sent w /\
    (forall l, _coapClient (self (attempts_in_turn l w')) = Some c) /\
    (forall w2 message, _coapClient (self w2) = Some c -> notify message w2 = w2).
Proof.
  intros Hc Hok Hreg w'. unfold w'. rewrite startObserve_eq. cbn [snd].
  apply Forall_app in Hok as [Hmsg Hnew]. apply find_fails_none in Hmsg.
  apply Forall_cons in Hnew as [Hnew _].
  assert (attempt_world o a w
          = log_exception catch_all (ExternalError at_registerForResponse)
              (with_new_client (hostTuple_of a) [] w)) as ->.
  { unfold attempt_world. now rewrite Hmsg, Hc, Hnew, Hreg. }
  eexists. split; [reflexivity|]. split; [reflexivity|].
  split; [reflexivity|]. split; [reflexivity|]. split.
  - intros l. now apply attempts_in_turn_keep.
  - intros w2 message Hc2. unfold notify. now rewrite Hc2.
Qed.

Lemma failed_registration_is_never_repaired_witness :
  let o := fails_only at_registerForResponse in
  _coapClient (self (__init__ 5682)) = None /\
  Forall (fun site => fails o site = false) (message_sites ++ [at_CoapClient]) /\
  fails o at_registerForResponse = true /\
  exists c, _coapClient (self (snd (_startObserve o mote_a (__init__ 5682)))) = Some c
            /\ responseHook c = [].
Proof.
  intros o.
  assert (Forall (fun site => fails o site = false) (message_sites ++ [at_CoapClient]))
    as Hok by (repeat constructor).
  split; [reflexivity|]. split; [exact Hok|]. split; [reflexivity|].
  destruct (failed_registration_is_never_repaired o mote_a (__init__ 5682)
              eq_refl Hok eq_refl) as (c & Hc & Hhook & _).
  now exists c.
Defined.

(** X13. An attempt either sends its request and logs the query and no error,
    or logs the exception once, as its last record.  When the exception came
    before the query was logged -- while the request was built or the client
    created -- nothing was sent; otherwise it came from [send]. *)
Theorem attempt_sends_or_logs (o : Oracle) (a : SockAddr) (w : World) :
  let w' := snd (_startObserve o a w) in
  (exists cid,
      sent w' = sent w ++ [(cid, observe_request o (hostTuple_of a))] /\
      logged w' = logged w ++ [query_record]) \/
  (exists e before,
     logged w' = logged w ++ before ++ [caught_record e] /\
     ((before = [] /\ sent w' = sent w) \/
      (before = [query_record] /\ e = ExternalError at_send))).
Proof.
  intros w'. unfold w'. rewrite startObserve_eq. cbn [snd].
  pose proof (attempt_log o a w) as Hlog. rewrite body_eq in Hlog.
  unfold attempt_world, send_world, hostTuple_of in *.
  destruct (List.find (fails o) message_sites) as [site|].
  { right. destruct Hlog as (_ & before & Hall). now exists (ExternalError site), before. }
  destruct (_coapClient (self w)) as [c|].
  - destruct (fails o at_send).
    + right. destruct Hlog as (_ & before & Hall).
      now exists (ExternalError at_send), before.
    + left. now exists (clientId c).
  - destruct (fails o at_CoapClient).
    { right. destruct Hlog as (_ & before & Hall).
      now exists (ExternalError at_CoapClient), before. }
    destruct (fails o at_registerForResponse).
    { right. destruct Hlog as (_ & before & Hall).
      now exists (ExternalError at_registerForResponse), before. }
    destruct (fails o at_send).
    + right. destruct Hlog as (_ & before & Hall).
      now exists (ExternalError at_send), before.
    + left. now exists (clientsCreated w).
Qed.

(** X14. When the attempts on a collector without client run one after
    another, the client they leave carries the handler at most once: a
    notification is then logged once if the handler is there and not at all
    otherwise, never twice. *)
Theorem notification_logged_at_most_once
    (l : list (Oracle * SockAddr)) (w : World) (message : Notification) :
  _coapClient (self w) = None ->
  let w' := attempts_in_turn l w in
  match _coapClient (self w') with
  | None => notify message w' = w'
  | Some c =>
      (responseHook c = [] /\ notify message w' = w') \/
      (responseHook c = [cb_observeTemp] /\ notify message w' = _observeTemp message w')
  end.
Proof.
  intros Hc w'. unfold w'. clear w'. unfold notify.
  destruct (attempts_in_turn_hook l w Hc) as [Hnone|(c & Hsome & Hhook)].
  - now rewrite Hnone.
  - rewrite Hsome. destruct Hhook as [Hhook|Hhook]; rewrite Hhook;
      [left | right]; now split.
Qed.

Lemma notification_logged_at_most_once_witness :
  let w' := attempts_in_turn [(quiet, mote_a); (quiet, mote_b)] (__init__ 5682) in
  _coapClient (self (__init__ 5682)) = None /\
  match _coapClient (self w') with
  | None => notify reading w' = w'
  | Some c =>
      (responseHook c = [] /\ notify reading w' = w') \/
      (responseHook c = [cb_observeTemp] /\ notify reading w' = _observeTemp reading w')
  end.
Proof.
  intros w'. split; [reflexivity|].
  apply (notification_logged_at_most_once [(quiet, mote_a); (quiet, mote_b)]
           (__init__ 5682) reading eq_refl).
Defined.

(** X15. The client of a running collector, once there, sends from the port
    the collector was given while the server listens on the next one, and is
    bound to a host of the registry. *)
Theorem client_ports_and_binding (sp : Z) (evs : list Event) (c : CoapClient) :
  let w := run evs (__init__ sp) in
  _coapClient (self w) = Some c ->
  sourcePort c = sp /\
  port (_coapServer (self w)) = sp + 1 /\
  sourcePort c <> port (_coapServer (self w)) /\
  (exists h, h ∈ _hosts (self w) /\ address h = fst (dest c)).
Proof.
  intros w Hc. pose proof (sound_reached sp evs) as Hsound. fold w in Hsound.
  destruct (sound_client sp w Hsound c Hc) as (Hport & Hk & _).
  destruct (sound_ports sp w Hsound) as [_ Hsrv].
  repeat split; auto. lia.
Qed.

Lemma client_ports_and_binding_witness :
  let w := run [Inbound POST (request "/dh/lo" mote_a); Tick 2; Expire 0 quiet]
             (__init__ 5682) in
  let c := {| clientId := 0; sourcePort := 5682; dest := hostTuple_of mote_a;
              responseHook := [cb_observeTemp] |} in
  _coapClient (self w) = Some c /\ port (_coapServer (self w)) = 5682 + 1.
Proof.
  intros w c. split; [reflexivity|].
  apply (client_ports_and_binding 5682
           [Inbound POST (request "/dh/lo" mote_a); Tick 2; Expire 0 quiet] c eq_refl).
Defined.

(** ** The entry point *)



(** ** Overlapping attempts *)






(** ** The reply to an announcement *)

(** X17. The reply to an announcement says Created exactly when no
    announcement has arrived from that address before; every later
    announcement from the address is answered with the result fields as they
    came in. *)
Theorem created_only_for_first_announcement
    (sp : Z) (evs : list Event) (resource : Resource) :
  path resource = "/dh/lo" ->
  let w := run evs (__init__ sp) in
  replies (step w (Inbound POST resource))
  = replies w
    ++ [ if decide (sa_host (sourceAddress resource) ∈ sa_host <$> announced evs)
         then resource
         else set_resultCode (OfSuccess Created) (set_resultClass Success resource) ].
Proof.
  intros Hpath w. unfold w. clear w. cbn [step].
  assert (wired (run evs (__init__ sp))) as Hw
    by (eapply later_wired; [apply later_run|]; apply init_wired).
  rewrite serve_POST by exact Hw. cbn [replies add_reply].
  destruct (decide (sa_host (sourceAddress resource) ∈ sa_host <$> announced evs))
    as [Hin|Hout].
  - apply (known_iff_announced sp evs) in Hin. apply find_host_known in Hin as [h Hfind].
    now rewrite (postResource_found _ _ h Hpath Hfind).
  - assert (~ known (sa_host (sourceAddress resource)) (run evs (__init__ sp))) as Hnew
      by (intros Hk; apply Hout; now apply (known_iff_announced sp evs)).
    apply not_known_find in Hnew.
    destruct (postResource_new _ _ Hpath Hnew) as (h & _ & ->). reflexivity.
Qed.

Lemma created_only_for_first_announcement_witness :
  path (request "/dh/lo" mote_a) = "/dh/lo" /\
  replies (step (run [Inbound POST (request "/dh/lo" mote_a)] (__init__ 5682))
             (Inbound POST (request "/dh/lo" mote_a)))
  = replies (run [Inbound POST (request "/dh/lo" mote_a)] (__init__ 5682))
    ++ [request "/dh/lo" mote_a].
Proof.
  split; [reflexivity|].
  apply (created_only_for_first_announcement 5682
           [Inbound POST (request "/dh/lo" mote_a)] (request "/dh/lo" mote_a) eq_refl).
Defined.
